(** * Multi-agent system: routing, role wrappers and session state

    A shallow embedding of [agents/base_agent.py], [agents/text_agent.py],
    [agents/vision_agent.py], [agents/coordinator_agent.py] and
    [utils/state_manager.py], followed by the properties of the
    specification stated against it.

    Conventions of the embedding.
    - A Python [str] is a [string]; a character is a code point below 256,
      and on that range [lower] and [isspace] are those of CPython.
    - A Python [dict] with string keys is a [gmap string _].
    - A method that may raise is a computation in the monad [M]: it takes
      the world (session state and trace of events) and returns either a
      value or an exception, with the world it leaves behind.
    - The generative client, [st.write] and [Image.open] are external: they
      are fields of an [environment], each a function of the external events
      that happened before the call. *)

From Stdlib Require Import ZArith Lia Ascii.
From stdpp Require Import base gmap strings list.

Local Open Scope Z_scope.
Local Open Scope stdpp_scope.

(** ** Python string and slice primitives *)

Module PyStr.

Definition nl : string := String "010"%char "".

(** [c.isspace()] for a code point below 256. *)
Definition isspace (c : ascii) : bool :=
  let n := N_of_ascii c in
  ((9 <=? n) && (n <=? 13) || (28 <=? n) && (n <=? 32)
   || (n =? 133) || (n =? 160))%N.

(** [c.lower()] for a code point below 256. *)
Definition lower_char (c : ascii) : ascii :=
  let n := N_of_ascii c in
  if ((65 <=? n) && (n <=? 90)
      || (192 <=? n) && (n <=? 222) && negb (n =? 215))%N
  then ascii_of_N (n + 32) else c.

(** [s.lower()] *)
Fixpoint lower (s : string) : string :=
  match s with
  | EmptyString => EmptyString
  | String c s' => String (lower_char c) (lower s')
  end.

(** [s.replace(old, new)] for one-character [old] and [new]. *)
Fixpoint replace_char (old new : ascii) (s : string) : string :=
  match s with
  | EmptyString => EmptyString
  | String c s' =>
      String (if Ascii.eqb c old then new else c) (replace_char old new s')
  end.

(** [s.startswith(p)] *)
Fixpoint startswith (p s : string) : bool :=
  match p, s with
  | EmptyString, _ => true
  | String _ _, EmptyString => false
  | String a p', String b s' => Ascii.eqb a b && startswith p' s'
  end.

(** [sub in s] *)
Fixpoint contains (sub s : string) : bool :=
  startswith sub s
  || match s with
     | EmptyString => false
     | String _ s' => contains sub s'
     end.

(** [s.lstrip()], [s.rstrip()], [s.strip()] *)
Fixpoint lstrip (s : string) : string :=
  match s with
  | EmptyString => EmptyString
  | String c s' => if isspace c then lstrip s' else s
  end.

Fixpoint rstrip (s : string) : string :=
  match s with
  | EmptyString => EmptyString
  | String c s' =>
      match rstrip s' with
      | EmptyString => if isspace c then EmptyString else String c EmptyString
      | r => String c r
      end
  end.

Definition strip (s : string) : string := rstrip (lstrip s).

(** Truth value of a string: [if s:] *)
Definition truthy (s : string) : bool :=
  match s with EmptyString => false | String _ _ => true end.

Fixpoint take (n : nat) (s : string) : string :=
  match n, s with
  | S n', String c s' => String c (take n' s')
  | _, _ => EmptyString
  end.

Fixpoint drop (n : nat) (s : string) : string :=
  match n, s with
  | S n', String _ s' => drop n' s'
  | _, _ => s
  end.

(** A slice bound [i] of a sequence of length [len], as Python
    normalises it: a negative bound counts from the end, and the result is
    clamped to [0..len]. *)
Definition slice_index (len : nat) (i : Z) : nat :=
  Z.to_nat (if i <? 0 then Z.max 0 (i + Z.of_nat len)
            else Z.min i (Z.of_nat len)).

(** [s[i:]] and [s[:j]] on strings *)
Definition from (i : Z) (s : string) : string :=
  drop (slice_index (String.length s) i) s.

Definition upto (j : Z) (s : string) : string :=
  take (slice_index (String.length s) j) s.

(** [l[i:]] on lists *)
Definition list_from {A} (i : Z) (l : list A) : list A :=
  list.drop (slice_index (length l) i) l.

End PyStr.

Import PyStr.

(** ** Data model *)

(** What the caller may hand over as [image_data]: a decoded PIL image, a
    file-like object (it has a [read] attribute), or anything else. The
    number identifies the object. *)
Inductive image_object : Type :=
| PILImage (h : N)
| FileLike (h : N)
| OtherImage (h : N).

(** Values stored in the per-agent state dictionaries. *)
#[local] Set Warnings "-register-all".
Inductive value : Type :=
| VBool (b : bool)
| VStr (s : string)
| VList (l : list string)
| VDict (d : gmap string value).

#[local] Set Warnings "register-all".

(** Truth value of a stored value: [if v:] *)
Definition truth (v : value) : bool :=
  match v with
  | VBool b => b
  | VStr s => truthy s
  | VList l => match l with [] => false | _ :: _ => true end
  | VDict d => negb (bool_decide (dom d = ∅))
  end.

(** [o is not None] *)
Definition is_not_None {A} (o : option A) : bool :=
  match o with Some _ => true | None => false end.

(** One entry of [conversation_history]. *)
Record interaction : Type := Interaction {
  timestamp : string;
  user_input : string;
  agent_response : string;
  agent_type : string;
  has_image : bool
}.

(** One entry of [uploaded_images]. *)
Record uploaded_image : Type := UploadedImage {
  upload_timestamp : string;
  image : image_object
}.

(** [st.session_state] as Streamlit hands it over: any of the four
    variables may still be missing. *)
Record raw_session_state : Type := RawSessionState {
  raw_conversation_history : option (list interaction);
  raw_current_context : option string;
  raw_uploaded_images : option (list uploaded_image);
  raw_agent_states : option (gmap string (gmap string value))
}.

(** [st.session_state] once [StateManager.__init__] has run. *)
Record session_state : Type := SessionState {
  conversation_history : list interaction;
  current_context : string;
  uploaded_images : list uploaded_image;
  agent_states : gmap string (gmap string value)
}.

(** A Python exception, with the text [str(e)] gives. *)
Inductive exn : Type := Exception (msg : string).

Definition str (e : exn) : string := match e with Exception msg => msg end.

(** The outcome of a call: a value, or a raised exception. *)
Inductive result (A : Type) : Type :=
| Ok (a : A)
| Raise (e : exn).
Arguments Ok {A} a.
Arguments Raise {A} e.

(** Events of a run, oldest first. [EProcess] marks the entry into an
    agent's [process]; the others are calls that leave the program. *)
Inductive event : Type :=
| EProcess (agent : string) (user_input : string) (image : option image_object)
| EWrite (text : string)
| EGenerateText (prompt context : string)
| EGenerateVision (prompt : string) (image : image_object) (context : string)
| EImageOpen (h : N).

Definition is_external (ev : event) : bool :=
  match ev with EProcess _ _ _ => false | _ => true end.

(** The part of a trace an external service can have seen. *)
Definition external (tr : list event) : list event :=
  List.filter is_external tr.

(** The duck-typed [client] the agents are built with. *)
Record client : Type := Client {
  generate_text_response : list event -> string -> string -> result string;
  generate_vision_response :
    list event -> string -> image_object -> string -> result string
}.

Record environment : Type := Environment {
  the_client : client;
  st_write : list event -> string -> result unit;
  Image_open : list event -> N -> result N
}.

Record world : Type := World {
  st : session_state;
  trace : list event
}.

(** ** The monad of methods that may raise *)

Definition M (A : Type) : Type := world -> result A * world.

Definition ret {A} (a : A) : M A := fun w => (Ok a, w).

Definition raise {A} (e : exn) : M A := fun w => (Raise e, w).

Definition bind {A B} (m : M A) (k : A -> M B) : M B :=
  fun w =>
    match m w with
    | (Ok a, w') => k a w'
    | (Raise e, w') => (Raise e, w')
    end.

(** [try: body except Exception as e: handler]. What the body did to the
    world before it raised stays done. *)
Definition try_except {A} (body : M A) (handler : exn -> M A) : M A :=
  fun w =>
    match body w with
    | (Ok a, w') => (Ok a, w')
    | (Raise e, w') => handler e w'
    end.

Declare Scope py_scope.
Delimit Scope py_scope with py.
Notation "x <- m ;; k" := (bind m (fun x => k))
  (at level 100, m at next level, right associativity) : py_scope.
Notation "m ;; k" := (bind m (fun _ => k))
  (at level 100, right associativity) : py_scope.
Local Open Scope py_scope.

(** Reading and updating the session state never raises. *)
Definition read {A} (f : session_state -> A) : M A :=
  fun w => (Ok (f (st w)), w).

Definition modify (f : session_state -> session_state) : M unit :=
  fun w => (Ok tt, World (f (st w)) (trace w)).

(** Recording an [EProcess] mark. The source has no statement for it: the
    mark is what lets a property speak of an agent being invoked. *)
Definition emit (ev : event) : M unit :=
  fun w => (Ok tt, World (st w) (trace w ++ [ev])).

(** An external call: the event is recorded, then the environment answers
    from what it has seen so far. *)
Definition call {A} (ev : event) (answer : list event -> result A) : M A :=
  fun w => (answer (external (trace w)), World (st w) (trace w ++ [ev])).

(** ** utils/state_manager.py *)

Module StateManager.

Definition initial_agent_states : gmap string (gmap string value) :=
  {[ "text_agent" := {[ "active" := VBool true; "last_response" := VStr "" ]};
     "vision_agent" := {[ "active" := VBool true; "last_response" := VStr "" ]};
     "coordinator" := {[ "active" := VBool true; "last_decision" := VStr "" ]} ]}.

Definition initialize_session_state (raw : raw_session_state) : session_state :=
  {| conversation_history := default [] (raw_conversation_history raw);
     current_context := default "" (raw_current_context raw);
     uploaded_images := default [] (raw_uploaded_images raw);
     agent_states := default initial_agent_states (raw_agent_states raw) |}.

(** [now] is what [datetime.now().isoformat()] returns at the call. *)
Definition add_to_history (now : string) (user_input agent_response agent_type : string)
    (image_data : option image_object) (s : session_state) : session_state :=
  let interaction :=
    {| timestamp := now;
       user_input := user_input;
       agent_response := agent_response;
       agent_type := agent_type;
       has_image := is_not_None image_data |} in
  {| conversation_history := conversation_history s ++ [interaction];
     current_context := current_context s;
     uploaded_images := uploaded_images s;
     agent_states := agent_states s |}.

Definition update_context (new_context : string) (s : session_state) : session_state :=
  let current_context :=
    if truthy (current_context s)
    then current_context s +:+ nl +:+ new_context
    else new_context in
  let current_context :=
    if (1000 <? Z.of_nat (String.length current_context))
    then from (-1000) current_context
    else current_context in
  {| conversation_history := conversation_history s;
     current_context := current_context;
     uploaded_images := uploaded_images s;
     agent_states := agent_states s |}.

Definition get_context (s : session_state) : string := current_context s.

Definition get_recent_history (limit : Z) (s : session_state) : list interaction :=
  match conversation_history s with
  | [] => []
  | _ :: _ => list_from (- limit) (conversation_history s)
  end.

Definition clear_history (s : session_state) : session_state :=
  {| conversation_history := [];
     current_context := "";
     uploaded_images := [];
     agent_states := agent_states s |}.

(** [dict.update] overwrites the given keys and keeps the others. *)
Definition update_agent_state (agent_name : string) (state_data : gmap string value)
    (s : session_state) : session_state :=
  match agent_states s !! agent_name with
  | Some d =>
      {| conversation_history := conversation_history s;
         current_context := current_context s;
         uploaded_images := uploaded_images s;
         agent_states := <[agent_name := state_data ∪ d]> (agent_states s) |}
  | None => s
  end.

Definition get_agent_state (agent_name : string) (s : session_state) : gmap string value :=
  default ∅ (agent_states s !! agent_name).

Definition add_uploaded_image (now : string) (image_data : image_object)
    (s : session_state) : session_state :=
  {| conversation_history := conversation_history s;
     current_context := current_context s;
     uploaded_images :=
       uploaded_images s ++ [ {| upload_timestamp := now; image := image_data |} ];
     agent_states := agent_states s |}.

Definition get_latest_image (s : session_state) : option image_object :=
  match uploaded_images s with
  | [] => None
  | _ :: _ => image <$> last (uploaded_images s)
  end.

End StateManager.

(** ** agents/base_agent.py *)

Module BaseAgent.
Section WithEnvironment.
Variable env : environment.

(** U+1F916, the robot face the log lines start with; it lies outside
    the modelled range of characters and is kept as its UTF-8 bytes. *)
Definition robot : string := "🤖".

Definition write (text : string) : M unit :=
  call (EWrite text) (fun seen => st_write env seen text).

Definition log_action (name action details : string) : M unit :=
  write (robot +:+ " **" +:+ name +:+ "**: " +:+ action) ;;
  if truthy details
  then write ("   *" +:+ details +:+ "*")
  else ret tt.

(** [self.name.lower().replace(' ', '_')] *)
Definition state_key (name : string) : string :=
  replace_char " " "_" (lower name).

Definition update_state (name : string) (state_data : gmap string value) : M unit :=
  modify (StateManager.update_agent_state (state_key name) state_data).

Definition get_state (name : string) : M (gmap string value) :=
  read (StateManager.get_agent_state (state_key name)).
End WithEnvironment.
End BaseAgent.

(** ** agents/text_agent.py *)

Module TextAgent.
Section WithEnvironment.
Variable env : environment.

Definition name : string := "Text Agent".

Definition can_handle (input_type : string) (has_image : bool) : bool :=
  String.eqb input_type "text" && negb has_image.

Definition base_instruction : string :=
  "You are a helpful AI assistant specializing in text-based interactions. "
  +:+ nl +:+
  "        Provide clear, accurate, and contextually relevant responses. If you need more information to give a better answer, ask clarifying questions.".

Definition _enhance_prompt (user_input context : string) : string :=
  if truthy context
  then base_instruction +:+ nl +:+ nl +:+ "Conversation Context:" +:+ nl
       +:+ context +:+ nl +:+ nl +:+ "User Query: " +:+ user_input
  else base_instruction +:+ nl +:+ nl +:+ "User Query: " +:+ user_input.

Definition process (user_input : string) (image_data : option image_object) : M string :=
  emit (EProcess name user_input image_data) ;;
  try_except
    (context <- read StateManager.get_context ;;
     let enhanced_prompt := _enhance_prompt user_input context in
     response <- call (EGenerateText enhanced_prompt context)
                   (fun seen => generate_text_response (the_client env) seen
                                  enhanced_prompt context) ;;
     BaseAgent.update_state name
       {[ "last_response" := VStr response; "active" := VBool true ]} ;;
     modify (StateManager.update_context
               ("User asked: " +:+ user_input +:+ nl +:+ "Agent responded: "
                +:+ upto 200 response +:+ "...")) ;;
     ret response)
    (fun e =>
       let error_msg := "Error processing text input: " +:+ str e in
       BaseAgent.update_state name
         {[ "last_response" := VStr error_msg; "active" := VBool false ]} ;;
       ret error_msg).

Definition get_status : M string :=
  state <- BaseAgent.get_state name ;;
  ret (if truth (default (VBool false) (state !! "active"))
       then "🟢 Active" else "🔴 Inactive").

Definition capabilities : list string :=
  ["Answer general questions"; "Provide explanations"; "Generate text content";
   "Analyze text data"; "Provide recommendations"].

(** [BaseAgent.get_capabilities] on this agent *)
Definition get_capabilities : list string := capabilities.
End WithEnvironment.
End TextAgent.

(** ** agents/vision_agent.py *)

Module VisionAgent.
Section WithEnvironment.
Variable env : environment.

Definition name : string := "Vision Agent".

Definition can_handle (input_type : string) (has_image : bool) : bool :=
  has_image || String.eqb input_type "image".

Definition no_image_message : string :=
  "No image provided. Please upload an image for visual analysis.".

Definition base_instruction : string :=
  "You are a specialized vision AI assistant. Analyze the provided image carefully and respond to the user's query with detailed, accurate observations. "
  +:+ nl +:+
  "        Focus on visual elements, objects, people, text, colors, composition, and any relevant details that address the user's question.".

Definition _enhance_vision_prompt (user_input context : string) : string :=
  let user_input :=
    if negb (truthy (strip user_input))
    then "Please describe this image in detail."
    else user_input in
  if truthy context
  then base_instruction +:+ nl +:+ nl +:+ "Conversation Context:" +:+ nl
       +:+ context +:+ nl +:+ nl +:+ "User Query about the image: " +:+ user_input
  else base_instruction +:+ nl +:+ nl +:+ "User Query about the image: " +:+ user_input.

Definition _process_image (image_data : image_object) : M image_object :=
  try_except
    (match image_data with
     | PILImage _ => ret image_data
     | FileLike h =>
         opened <- call (EImageOpen h) (fun seen => Image_open env seen h) ;;
         ret (PILImage opened)
     | OtherImage _ => ret image_data
     end)
    (fun e => raise (Exception ("Unable to process image: " +:+ str e))).

Definition process (user_input : string) (image_data : option image_object) : M string :=
  emit (EProcess name user_input image_data) ;;
  try_except
    (image_data <-
       match image_data with
       | None => read StateManager.get_latest_image
       | Some _ => ret image_data
       end ;;
     match image_data with
     | None => ret no_image_message
     | Some image_data =>
         context <- read StateManager.get_context ;;
         let enhanced_prompt := _enhance_vision_prompt user_input context in
         processed_image <- _process_image image_data ;;
         response <- call (EGenerateVision enhanced_prompt processed_image context)
                       (fun seen => generate_vision_response (the_client env) seen
                                      enhanced_prompt processed_image context) ;;
         BaseAgent.update_state name
           {[ "last_response" := VStr response; "active" := VBool true ]} ;;
         modify (StateManager.update_context
                   ("User asked about image: " +:+ user_input +:+ nl
                    +:+ "Vision analysis: " +:+ upto 200 response +:+ "...")) ;;
         ret response
     end)
    (fun e =>
       let error_msg := "Error processing image: " +:+ str e in
       BaseAgent.update_state name
         {[ "last_response" := VStr error_msg; "active" := VBool false ]} ;;
       ret error_msg).

Definition get_status : M string :=
  state <- BaseAgent.get_state name ;;
  ret (if truth (default (VBool false) (state !! "active"))
       then "🟢 Active" else "🔴 Inactive").

Definition analyze_image_content (image_data : option image_object) : M string :=
  process
    "Provide a comprehensive analysis of this image, including objects, people, setting, colors, and overall composition."
    image_data.

Definition capabilities : list string :=
  ["Analyze images and photos"; "Answer questions about visual content";
   "Describe image contents"; "Identify objects, people, and scenes";
   "Read text from images (OCR)"; "Compare multiple images"].

(** [BaseAgent.get_capabilities] on this agent *)
Definition get_capabilities : list string := capabilities.
End WithEnvironment.
End VisionAgent.

(** The dictionary [CoordinatorAgent.get_system_status] returns; its keys
    are fixed. *)
Record system_status : Type := SystemStatus {
  status_coordinator : string;
  status_text_agent : string;
  status_vision_agent : string;
  total_agents : Z;
  active_agents : Z
}.

(** ** agents/coordinator_agent.py *)

Module CoordinatorAgent.
Section WithEnvironment.
Variable env : environment.

Definition name : string := "Coordinator Agent".

Definition can_handle (input_type : string) (has_image : bool) : bool := true.

Definition image_keywords : list string :=
  ["image"; "picture"; "photo"; "see"; "look"; "visual"; "describe";
   "analyze"; "identify"; "what is"; "what are"].

Definition _determine_input_type (user_input : string) (has_image : bool) : string :=
  if has_image then
    if existsb (fun keyword => contains keyword (lower user_input)) image_keywords
       || negb (truthy (strip user_input))
    then "vision_primary"
    else "vision_with_text"
  else "text_only".

Definition synthesis_prompt (original_query vision_response text_response : string)
    : string :=
  nl +:+ "        Original user query: " +:+ original_query +:+ nl
  +:+ "        " +:+ nl
  +:+ "        Vision Agent Analysis: " +:+ vision_response +:+ nl
  +:+ "        " +:+ nl
  +:+ "        Text Agent Response: " +:+ text_response +:+ nl
  +:+ "        " +:+ nl
  +:+ "        Please provide a coherent, comprehensive response that combines the visual analysis with the textual reasoning to best answer the user's query."
  +:+ nl +:+ "        ".

Definition _combine_responses (vision_response text_response original_query : string)
    : M string :=
  let synthesis_prompt :=
    synthesis_prompt original_query vision_response text_response in
  try_except
    (synthesized <- call (EGenerateText synthesis_prompt "")
                      (fun seen => generate_text_response (the_client env) seen
                                     synthesis_prompt "") ;;
     ret ("**Comprehensive Analysis:**" +:+ nl +:+ nl +:+ synthesized))
    (fun _ =>
       ret ("**Visual Analysis:**" +:+ nl +:+ vision_response +:+ nl +:+ nl
            +:+ "**Additional Analysis:**" +:+ nl +:+ text_response)).

Definition _route_request (user_input : string) (image_data : option image_object)
    (input_type : string) (has_image : bool) : M string :=
  if String.eqb input_type "text_only" then
    BaseAgent.log_action env name "Routing to Text Agent" "Processing text-only query" ;;
    TextAgent.process env user_input image_data
  else if String.eqb input_type "vision_primary" then
    BaseAgent.log_action env name "Routing to Vision Agent"
      "Processing image-focused query" ;;
    VisionAgent.process env user_input image_data
  else if String.eqb input_type "vision_with_text" then
    BaseAgent.log_action env name "Coordinating Multi-Modal Processing"
      "Using both Vision and Text agents" ;;
    vision_response <- VisionAgent.process env user_input image_data ;;
    let enhanced_query :=
      "Based on this image analysis: " +:+ vision_response +:+ nl +:+ nl
      +:+ "User's additional question: " +:+ user_input in
    text_response <- TextAgent.process env enhanced_query None ;;
    combined_response <- _combine_responses vision_response text_response user_input ;;
    ret combined_response
  else ret "Unable to determine how to process this request.".

Definition _get_agents_used (input_type : string) : list string :=
  if String.eqb input_type "text_only" then ["Text Agent"]
  else if String.eqb input_type "vision_primary" then ["Vision Agent"]
  else if String.eqb input_type "vision_with_text" then ["Vision Agent"; "Text Agent"]
  else [].

Definition _get_routing_info (input_type : string) (has_image : bool)
    : gmap string value :=
  {[ "input_type" := VStr input_type;
     "has_image" := VBool has_image;
     "agents_used" := VList (_get_agents_used input_type);
     "processing_mode" := VStr input_type ]}.

Definition process (user_input : string) (image_data : option image_object) : M string :=
  try_except
    (let has_image := is_not_None image_data in
     let input_type := _determine_input_type user_input has_image in
     response <- _route_request user_input image_data input_type has_image ;;
     BaseAgent.update_state name
       {[ "last_decision" := VStr input_type;
          "active" := VBool true;
          "last_routing" := VDict (_get_routing_info input_type has_image) ]} ;;
     ret response)
    (fun e =>
       let error_msg := "Coordinator error: " +:+ str e in
       BaseAgent.update_state name
         {[ "last_decision" := VStr "error"; "active" := VBool false ]} ;;
       ret error_msg).

Definition get_status : M string :=
  state <- BaseAgent.get_state name ;;
  ret (if truth (default (VBool false) (state !! "active"))
       then "ğŸŸ¢ Active" else "ğŸ”´ Inactive").

Definition get_system_status : M system_status :=
  coordinator <- get_status ;;
  text_agent <- TextAgent.get_status ;;
  vision_agent <- VisionAgent.get_status ;;
  own_again <- get_status ;;
  text_again <- TextAgent.get_status ;;
  vision_again <- VisionAgent.get_status ;;
  ret {| status_coordinator := coordinator;
         status_text_agent := text_agent;
         status_vision_agent := vision_agent;
         total_agents := 3;
         active_agents :=
           (if contains "Active" own_again then 1 else 0)
           + (if contains "Active" text_again then 1 else 0)
           + (if contains "Active" vision_again then 1 else 0) |}.

Definition capabilities : list string :=
  ["Route queries to appropriate agents"; "Coordinate multi-agent responses";
   "Manage conversation flow"; "Handle complex multi-modal inputs";
   "Maintain system state"].

Definition get_capabilities_summary : gmap string (list string) :=
  {[ "coordinator" := capabilities;
     "text_agent" := TextAgent.capabilities;
     "vision_agent" := VisionAgent.capabilities ]}.
End WithEnvironment.
End CoordinatorAgent.

(** ** utils/gemini_client.py *)

(** The client of the repository, over the two generative models it is
    configured with. A model is external: [text_model seen full_prompt] is
    what [self.text_model.generate_content(full_prompt).text] evaluates to,
    and [vision_model seen full_prompt image] what
    [self.vision_model.generate_content([full_prompt, image]).text] does.
    The constructor, which reads the API key, is not part of the
    embedding. *)
Module GeminiClient.
Section WithModels.
Variable text_model : list event -> string -> result string.
Variable vision_model : list event -> string -> image_object -> result string.

Definition full_prompt (prompt context : string) : string :=
  if truthy context
  then "Context: " +:+ context +:+ nl +:+ nl +:+ "Query: " +:+ prompt
  else prompt.

Definition generate_text_response (seen : list event) (prompt context : string)
    : result string :=
  match text_model seen (full_prompt prompt context) with
  | Ok text => Ok text
  | Raise e => Ok ("Error generating text response: " +:+ str e)
  end.

Definition generate_vision_response (seen : list event) (prompt : string)
    (image : image_object) (context : string) : result string :=
  match vision_model seen (full_prompt prompt context) image with
  | Ok text => Ok text
  | Raise e => Ok ("Error generating vision response: " +:+ str e)
  end.

(** The object handed to the agents as [client]. *)
Definition self : client := Client generate_text_response generate_vision_response.
End WithModels.
End GeminiClient.

(** ** app.py *)

Module App.

(** [needle in v] for a stored value [v]; on a boolean Python raises. *)
Definition value_contains (needle : string) (v : value) : result bool :=
  match v with
  | VStr s => Ok (contains needle s)
  | VList l => Ok (bool_decide (needle ∈ l))
  | VDict d => Ok (bool_decide (is_Some (d !! needle)))
  | VBool _ => Raise (Exception "argument of type 'bool' is not iterable")
  end.

(** The label [handle_user_input] files a turn under, from the
    coordinator's state after [process] (the statements between the call of
    [coordinator.process] and that of [add_to_history]). *)
Definition agent_type_of_turn : M string :=
  state <- BaseAgent.get_state CoordinatorAgent.name ;;
  let last_decision := default (VStr "") (state !! "last_decision") in
  match value_contains "text" last_decision with
  | Raise e => raise e
  | Ok true => ret "Text Agent"
  | Ok false =>
      match value_contains "vision" last_decision with
      | Raise e => raise e
      | Ok true => ret "Vision Agent"
      | Ok false => ret "Coordinator"
      end
  end.

(** The message count [display_header] shows. *)
Definition message_count (s : session_state) : nat :=
  length (StateManager.get_recent_history 1000 s).

End App.

(** ** Vocabulary of the specification *)

(** [sub] occurs in [s] as a run of consecutive characters. *)
Definition is_substring (sub s : string) : Prop :=
  ∃ before after, s = before +:+ sub +:+ after.

(** [s] is empty or consists of whitespace only. *)
Fixpoint blank (s : string) : Prop :=
  match s with
  | EmptyString => True
  | String c s' => isspace c = true ∧ blank s'
  end.

(** The three classifications of a turn. *)
Definition text_only : string := "text_only".
Definition vision_primary : string := "vision_primary".
Definition vision_with_text : string := "vision_with_text".

(** The events a run added to the trace. *)
Definition new_events (before after : world) : list event :=
  list.drop (length (trace before)) (trace after).

(** How often [agent]'s [process] was entered in a stretch of trace. *)
Definition invocations (agent : string) (tr : list event) : nat :=
  length (List.filter
            (λ ev, match ev with
                   | EProcess a _ _ => String.eqb a agent
                   | _ => false
                   end) tr).

(** A computation that leaves the state dictionary stored under [key] as
    it found it, whether it returns or raises. *)
Definition keeps_entry (key : string) {A} (m : M A) : Prop :=
  ∀ w, agent_states (st (snd (m w))) !! key = agent_states (st w) !! key.

(** The key set [StateManager.initialize_session_state] creates. *)
Definition initial_keys : gset string :=
  {[ "text_agent"; "vision_agent"; "coordinator" ]}.

(** A session just created, and environments used in the examples. *)
Definition fresh_session : session_state :=
  StateManager.initialize_session_state (RawSessionState None None None None).

Definition fresh_world : world := World fresh_session [].

(** A session in which one image has been uploaded. *)
Definition uploaded_world : world :=
  World (StateManager.add_uploaded_image "09:00" (FileLike 7) fresh_session) [].

(** Every external call succeeds. *)
Definition obliging : environment :=
  {| the_client :=
       {| generate_text_response := fun _ _ _ => Ok "a text answer";
          generate_vision_response := fun _ _ _ _ => Ok "a vision answer" |};
     st_write := fun _ _ => Ok tt;
     Image_open := fun _ h => Ok h |}.

(** The page cannot be written to. *)
Definition broken_page : environment :=
  {| the_client := the_client obliging;
     st_write := fun _ _ => Raise (Exception "page closed");
     Image_open := fun _ h => Ok h |}.

(** Generation fails whenever it is called without context, as the
    synthesis call is, and succeeds otherwise. *)
Definition no_synthesis : environment :=
  {| the_client :=
       {| generate_text_response := fun _ _ context =>
            if truthy context then Ok "a text answer"
            else Raise (Exception "quota exceeded");
          generate_vision_response := fun _ _ _ _ => Ok "a vision answer" |};
     st_write := fun _ _ => Ok tt;
     Image_open := fun _ h => Ok h |}.

(** Every generation call fails. *)
Definition failing_gateway : environment :=
  {| the_client :=
       {| generate_text_response := fun _ _ _ => Raise (Exception "quota exceeded");
          generate_vision_response := fun _ _ _ _ => Raise (Exception "quota exceeded") |};
     st_write := fun _ _ => Ok tt;
     Image_open := fun _ h => Ok h |}.

(** A property of the session state that its two writers used by the
    agents, [update_agent_state] and [update_context], keep. *)
Definition stable (P : session_state → Prop) : Prop :=
  ∀ s, P s →
    (∀ agent_name state_data,
       P (StateManager.update_agent_state agent_name state_data s))
    ∧ (∀ new_context, P (StateManager.update_context new_context s)).

(** A computation after which [P] holds of the session state whenever it
    held before, whether the computation returns or raises. *)
Definition maintains (P : session_state → Prop) {A} (m : M A) : Prop :=
  ∀ w, P (st w) → P (st (snd (m w))).

(** The agents whose [process] was entered in a stretch of trace, in the
    order of entry. *)
Fixpoint invoked (tr : list event) : list string :=
  match tr with
  | [] => []
  | EProcess agent _ _ :: tr' => agent :: invoked tr'
  | _ :: tr' => invoked tr'
  end.

(** The page accepts every write. *)
Definition writable (env : environment) : Prop :=
  ∀ seen text, st_write env seen text = Ok tt.

(** A text of [n] letters. *)
Fixpoint filler (n : nat) : string :=
  match n with
  | O => ""
  | S n' => String "x"%char (filler n')
  end.

(** Models that fail on every request. *)
Definition dead_text_model : list event -> string -> result string :=
  fun _ _ => Raise (Exception "503 unavailable").

Definition dead_vision_model : list event -> string -> image_object -> result string :=
  fun _ _ _ => Raise (Exception "503 unavailable").

(** * Properties *)

(** ** Strings and slices *)

#[local] Arguments String.append !_ _ / : simpl nomatch.

Section Strings.

Example state_key_of_coordinator :
  BaseAgent.state_key "Coordinator Agent" = "coordinator_agent"
  ∧ BaseAgent.state_key "Text Agent" = "text_agent"
  ∧ BaseAgent.state_key "Vision Agent" = "vision_agent".
Proof. repeat split. Qed.

Example slices :
  from (-3) "abcdef" = "def" ∧ from (-9) "abcdef" = "abcdef"
  ∧ from 0 "abcdef" = "abcdef" ∧ upto 2 "abcdef" = "ab" ∧ upto 200 "abcdef" = "abcdef"
  ∧ list_from (-2) [1; 2; 3] = [2; 3] ∧ list_from 0 [1; 2; 3] = [1; 2; 3].
Proof. repeat split. Qed.

Example string_tests :
  contains "see" (lower "Who SEES it") = true
  ∧ contains "what is" (lower "what  is") = false
  ∧ strip (" a b " +:+ nl) = "a b"
  ∧ truthy (strip ("  " +:+ nl)) = false.
Proof. repeat split. Qed.

Lemma append_empty_r s : s +:+ "" = s.
Proof. induction s as [|c s IH]; simpl; congruence. Qed.

Lemma append_assoc s1 s2 s3 : (s1 +:+ s2) +:+ s3 = s1 +:+ s2 +:+ s3.
Proof. induction s1 as [|c s1 IH]; simpl; congruence. Qed.

Lemma length_append s1 s2 :
  String.length (s1 +:+ s2) = (String.length s1 + String.length s2)%nat.
Proof. induction s1 as [|c s1 IH]; simpl; congruence. Qed.

Lemma startswith_spec p s : startswith p s = true ↔ ∃ after, s = p +:+ after.
Proof.
  revert s. induction p as [|a p IH]; intros s; simpl.
  - split; eauto.
  - destruct s as [|b s].
    + split; [discriminate | intros [after H]; discriminate].
    + rewrite andb_true_iff, IH. split.
      * intros [Hab [after ->]]. apply Ascii.eqb_eq in Hab as ->. eauto.
      * intros [after H]. injection H as -> ->.
        split; [apply Ascii.eqb_refl | eauto].
Qed.

Lemma contains_spec sub s : contains sub s = true ↔ is_substring sub s.
Proof.
  unfold is_substring. induction s as [|c s IH].
  - simpl. rewrite orb_false_r, startswith_spec. split.
    + intros [after H]. exists "", after. exact H.
    + intros [[|b before] [after H]]; [eauto | discriminate].
  - simpl. rewrite orb_true_iff, startswith_spec, IH. split.
    + intros [[after H] | (before & after & H)].
      * exists "", after. exact H.
      * exists (String c before), after. simpl. congruence.
    + intros ([|b before] & after & H).
      * left. eauto.
      * right. simpl in H. injection H as -> ->. eauto.
Qed.

Lemma contains_false sub s : contains sub s = false ↔ ¬ is_substring sub s.
Proof.
  rewrite <- contains_spec. destruct (contains sub s); split; congruence.
Qed.

Lemma lstrip_blank s : lstrip s = "" ↔ blank s.
Proof.
  induction s as [|c s IH]; simpl; [tauto |].
  destruct (isspace c); [rewrite IH; tauto |].
  split; [discriminate | intros [? _]; discriminate].
Qed.

Lemma rstrip_empty s : rstrip s = "" ↔ blank s.
Proof.
  induction s as [|c s IH]; simpl; [tauto |].
  destruct (rstrip s) as [|] eqn:E.
  - destruct (isspace c); [tauto |].
    split; [discriminate | intros [? _]; discriminate].
  - split; [discriminate |].
    intros [_ Hb]. apply IH in Hb. discriminate.
Qed.

Lemma lstrip_head s :
  match lstrip s with
  | EmptyString => True
  | String c _ => isspace c = false
  end.
Proof.
  induction s as [|c s IH]; simpl; [exact I |].
  destruct (isspace c) eqn:E; [exact IH | exact E].
Qed.

(** [not s.strip()] holds exactly of the blank strings. *)
Lemma strip_blank s : truthy (strip s) = false ↔ blank s.
Proof.
  unfold strip. rewrite <- lstrip_blank.
  pose proof (lstrip_head s) as Hh.
  destruct (lstrip s) as [|c t] eqn:E; [simpl; tauto |].
  split; [| discriminate].
  intros Ht. assert (Hr : rstrip (String c t) = "").
  { destruct (rstrip (String c t)); [reflexivity | discriminate]. }
  apply rstrip_empty in Hr. simpl in Hr. destruct Hr as [Hc _]. congruence.
Qed.

Lemma str_take_drop n s : take n s +:+ drop n s = s.
Proof.
  revert s. induction n as [|n IH]; intros [|c s]; simpl; try reflexivity.
  f_equal. apply IH.
Qed.

Lemma str_length_drop n s : String.length (drop n s) = (String.length s - n)%nat.
Proof.
  revert s. induction n as [|n IH]; intros [|c s]; simpl; try reflexivity.
  apply IH.
Qed.

Lemma str_length_take n s : String.length (take n s) = (n `min` String.length s)%nat.
Proof.
  revert s. induction n as [|n IH]; intros [|c s]; simpl; try reflexivity.
  f_equal. apply IH.
Qed.

(** [s[-k:]], for a positive [k] and a string longer than [k], is the
    last [k] characters of the string. *)
Lemma from_negative (k : nat) s :
  (0 < k < String.length s)%nat →
  String.length (from (- Z.of_nat k) s) = k
  ∧ ∃ dropped, s = dropped +:+ from (- Z.of_nat k) s.
Proof.
  intros Hk. unfold from, slice_index.
  set (i := Z.to_nat _).
  assert (Hi : i = (String.length s - k)%nat).
  { unfold i. destruct (Z.ltb_spec (- Z.of_nat k) 0); lia. }
  rewrite Hi, str_length_drop. split; [lia |].
  exists (take (String.length s - k) s). symmetry. apply str_take_drop.
Qed.

End Strings.

(** ** Classification of a turn *)

Section Classification.
Import CoordinatorAgent.

Lemma keyword_test user_input :
  existsb (fun keyword => contains keyword (lower user_input)) image_keywords = true
  ↔ ∃ keyword, keyword ∈ image_keywords ∧ is_substring keyword (lower user_input).
Proof.
  rewrite existsb_exists. split.
  - intros (keyword & Hin & Hc).
    exists keyword. split; [by apply list_elem_of_In | by apply contains_spec].
  - intros (keyword & Hin & Hc).
    exists keyword. split; [by apply list_elem_of_In | by apply contains_spec].
Qed.

Lemma blank_test user_input :
  negb (truthy (strip user_input)) = true ↔ blank user_input.
Proof. rewrite negb_true_iff. apply strip_blank. Qed.

(** C1. The classification [process] computes for a turn: [text_only]
    when there is no image; [vision_primary] when there is an image and
    the text is blank or its lowercased form contains one of the eleven
    keywords as a substring; [vision_with_text] when there is an image,
    the text is not blank and no keyword occurs in it. *)
Theorem classification_of_turn (user_text : string) (image : option image_object) :
  let keywords :=
    ["image"; "picture"; "photo"; "see"; "look"; "visual"; "describe";
     "analyze"; "identify"; "what is"; "what are"] in
  let classification := _determine_input_type user_text (is_not_None image) in
  (image = None → classification = text_only)
  ∧ (image ≠ None →
     blank user_text
     ∨ (∃ keyword, keyword ∈ keywords ∧ is_substring keyword (lower user_text)) →
     classification = vision_primary)
  ∧ (image ≠ None →
     ¬ blank user_text →
     (∀ keyword, keyword ∈ keywords → ¬ is_substring keyword (lower user_text)) →
     classification = vision_with_text).
Proof.
  intros keywords classification. subst classification.
  change keywords with image_keywords. clear keywords.
  unfold _determine_input_type. repeat split.
  - intros ->. reflexivity.
  - intros Himage Hcase. destruct image as [img|]; [cbn [is_not_None] | done].
    destruct Hcase as [Hblank | Hkeyword].
    + apply blank_test in Hblank as ->. by rewrite orb_true_r.
    + apply keyword_test in Hkeyword as ->. reflexivity.
  - intros Himage Hblank Hnone. destruct image as [img|]; [cbn [is_not_None] | done].
    destruct (existsb _ image_keywords) eqn:Hk.
    + apply keyword_test in Hk as (keyword & Hin & Hsub).
      by destruct (Hnone keyword Hin).
    + destruct (negb (truthy (strip user_text))) eqn:Hb; [| reflexivity].
      apply blank_test in Hb. by destruct Hblank.
Qed.

Lemma classification_of_turn_witness :
  _determine_input_type "What's the capital of France?"
    (is_not_None (@None image_object)) = text_only
  ∧ _determine_input_type "   " (is_not_None (Some (PILImage 1))) = vision_primary
  ∧ _determine_input_type "Who SEES it" (is_not_None (Some (PILImage 1)))
    = vision_primary
  ∧ _determine_input_type "Why does this matter to me?"
      (is_not_None (Some (PILImage 1))) = vision_with_text.
Proof.
  split; [| split; [| split]].
  - apply (classification_of_turn "What's the capital of France?" None).
    reflexivity.
  - apply (classification_of_turn "   " (Some (PILImage 1))); [discriminate |].
    left. simpl. repeat split.
  - apply (classification_of_turn "Who SEES it" (Some (PILImage 1)));
      [discriminate |].
    right. exists "see". split.
    + apply list_elem_of_In. simpl. tauto.
    + exists "who ", "s it". reflexivity.
  - apply (classification_of_turn "Why does this matter to me?" (Some (PILImage 1)));
      [discriminate | |].
    + simpl. intros [H _]. discriminate H.
    + intros keyword Hin. apply contains_false.
      apply list_elem_of_In in Hin. simpl in Hin.
      repeat (destruct Hin as [<- | Hin]; [reflexivity |]). destruct Hin.
Defined.

End Classification.

(** ** The session stores *)

Section Stores.
Import StateManager.

Lemma update_context_length new s :
  (String.length (current_context (update_context new s)) ≤ 1000)%nat.
Proof.
  unfold update_context. cbn [current_context].
  set (c := if truthy (current_context s) then _ else _).
  destruct (Z.ltb_spec 1000 (Z.of_nat (String.length c))) as [Hlong | Hshort];
    [| lia].
  change (-1000) with (- Z.of_nat 1000).
  destruct (from_negative 1000 c) as [-> _]; lia.
Qed.

Lemma appends_length (appends : list string) s :
  (String.length (current_context s) ≤ 1000)%nat →
  (String.length
     (current_context (foldl (λ s new, update_context new s) s appends)) ≤ 1000)%nat.
Proof.
  revert s. induction appends as [|new appends IH]; intros s Hs; [exact Hs |].
  simpl. apply IH, update_context_length.
Qed.

(** C5. Starting from an empty buffer, the rolling context never exceeds
    1000 characters, whatever is appended. Each append joins the new
    content to a non-empty buffer with a newline (and replaces an empty
    one); when the result is longer than 1000 characters, its last 1000
    characters are kept, in their order. *)
Theorem rolling_context_capped (appends : list string) (s : session_state) :
  current_context s = "" →
  (String.length
     (current_context (foldl (λ s new, update_context new s) s appends)) ≤ 1000)%nat
  ∧ ∀ (s : session_state) (new : string),
      ∃ concatenation,
        (current_context s = "" → concatenation = new)
        ∧ (current_context s ≠ "" →
           concatenation = current_context s +:+ nl +:+ new)
        ∧ ((String.length concatenation ≤ 1000)%nat →
           current_context (update_context new s) = concatenation)
        ∧ ((1000 < String.length concatenation)%nat →
           String.length (current_context (update_context new s)) = 1000%nat
           ∧ ∃ dropped,
               concatenation = dropped +:+ current_context (update_context new s)).
Proof.
  intros Hempty. split.
  { apply appends_length. rewrite Hempty. simpl. lia. }
  clear. intros s new.
  exists (if truthy (current_context s)
          then current_context s +:+ nl +:+ new else new).
  unfold update_context. cbn [current_context].
  set (c := if truthy (current_context s) then _ else _).
  repeat split.
  - intros Hc. subst c. by rewrite Hc.
  - intros Hc. subst c. by destruct (current_context s).
  - intros Hshort. destruct (Z.ltb_spec 1000 (Z.of_nat (String.length c))); [lia | done].
  - destruct (Z.ltb_spec 1000 (Z.of_nat (String.length c))); [| lia].
    change (-1000) with (- Z.of_nat 1000). apply from_negative. lia.
  - destruct (Z.ltb_spec 1000 (Z.of_nat (String.length c))); [| lia].
    change (-1000) with (- Z.of_nat 1000). apply from_negative. lia.
Qed.

Lemma rolling_context_capped_witness :
  (String.length
     (current_context
        (foldl (λ s new, update_context new s) fresh_session
           ["User asked: hello"; "Agent responded: hi..."])) ≤ 1000)%nat.
Proof.
  apply (rolling_context_capped ["User asked: hello"; "Agent responded: hi..."]
           fresh_session).
  reflexivity.
Defined.

(** With limit 0 the whole log comes back: [l[-0:]] is [l[0:]]. *)
Lemma get_recent_history_zero s :
  get_recent_history 0 s = conversation_history s.
Proof.
  unfold get_recent_history. by destruct (conversation_history s).
Qed.

(** C6, for limits from 1 on. [get_recent_history] returns at most
    [limit] records; they are the end of the log, in the order of the log;
    and when the log is not empty its newest record is the last one
    returned. *)
Theorem recent_history_positive_limit (limit : Z) (s : session_state) :
  1 ≤ limit →
  Z.of_nat (length (get_recent_history limit s)) ≤ limit
  ∧ (∃ older, conversation_history s = older ++ get_recent_history limit s)
  ∧ (∀ earlier newest,
       conversation_history s = earlier ++ [newest] →
       last (get_recent_history limit s) = Some newest).
Proof.
  intros Hlimit. unfold get_recent_history.
  destruct (conversation_history s) as [|r log] eqn:Hlog.
  { split; [simpl; lia |]. split; [by exists [] |].
    intros earlier newest H. by destruct earlier. }
  set (h := r :: log). unfold list_from, slice_index.
  destruct (Z.ltb_spec (- limit) 0) as [_ | ?]; [| lia].
  set (i := Z.to_nat _).
  assert (Hi : (i < length h)%nat) by (unfold i, h; simpl; lia).
  split; [| split].
  - rewrite length_drop. unfold i. lia.
  - exists (list.take i h). by rewrite take_drop.
  - intros earlier newest Hh.
    assert (Hlast : last h = Some newest) by (by rewrite Hh, last_snoc).
    rewrite <- (take_drop i h), last_app in Hlast.
    destruct (last (list.drop i h)) eqn:Hl; [done |].
    apply last_None in Hl. apply (f_equal length) in Hl.
    rewrite length_drop, length_nil in Hl. lia.
Qed.

Lemma recent_history_positive_limit_witness :
  let first := Interaction "09:00" "hello" "hi" "Text Agent" false in
  let second := Interaction "09:01" "thanks" "welcome" "Text Agent" false in
  let log :=
    add_to_history "09:01" "thanks" "welcome" "Text Agent" None
      (add_to_history "09:00" "hello" "hi" "Text Agent" None fresh_session) in
  Z.of_nat (length (get_recent_history 1 log)) ≤ 1
  ∧ last (get_recent_history 1 log) = Some second.
Proof.
  intros first second log.
  destruct (recent_history_positive_limit 1 log) as (Hlength & _ & Hlast);
    [lia |].
  split; [exact Hlength |]. apply (Hlast [first] second). reflexivity.
Defined.

(** C6 as stated fails at the limit 0: of a log of two records both are
    returned, where at most none may be. *)
Lemma recent_history_zero_limit_counterexample :
  let first := Interaction "09:00" "hello" "hi" "Text Agent" false in
  let second := Interaction "09:01" "thanks" "welcome" "Text Agent" false in
  let log :=
    add_to_history "09:01" "thanks" "welcome" "Text Agent" None
      (add_to_history "09:00" "hello" "hi" "Text Agent" None fresh_session) in
  get_recent_history 0 log = [first; second]
  ∧ ¬ (Z.of_nat (length (get_recent_history 0 log)) ≤ 0
       ∧ (∃ older, conversation_history log = older ++ get_recent_history 0 log)
       ∧ (∀ earlier newest,
            conversation_history log = earlier ++ [newest] →
            last (get_recent_history 0 log) = Some newest)).
Proof.
  intros first second log. split; [reflexivity |].
  intros [Hlength _]. simpl in Hlength. lia.
Qed.

End Stores.

(** ** The per-agent state dictionaries *)

Section AgentStates.
Import StateManager.

Lemma update_agent_state_unknown agent_name state_data s :
  agent_states s !! agent_name = None →
  update_agent_state agent_name state_data s = s.
Proof. intros H. unfold update_agent_state. by rewrite H. Qed.

Lemma update_agent_state_known agent_name state_data s d :
  agent_states s !! agent_name = Some d →
  agent_states (update_agent_state agent_name state_data s) !! agent_name
  = Some (state_data ∪ d).
Proof.
  intros H. unfold update_agent_state. rewrite H. simpl.
  by rewrite lookup_insert_eq.
Qed.

Lemma update_agent_state_other agent_name other state_data s :
  agent_name ≠ other →
  agent_states (update_agent_state agent_name state_data s) !! other
  = agent_states s !! other.
Proof.
  intros H. unfold update_agent_state.
  destruct (agent_states s !! agent_name); [simpl | done].
  by rewrite lookup_insert_ne.
Qed.

Lemma update_agent_state_keys agent_name state_data s :
  dom (agent_states (update_agent_state agent_name state_data s))
  = dom (agent_states s).
Proof.
  unfold update_agent_state.
  destruct (agent_states s !! agent_name) as [d|] eqn:H; [simpl | done].
  rewrite dom_insert_L. apply elem_of_dom_2 in H.
  apply subseteq_union_1_L. by apply singleton_subseteq_l.
Qed.

Lemma update_agent_state_stores agent_name state_data s :
  conversation_history (update_agent_state agent_name state_data s)
  = conversation_history s
  ∧ current_context (update_agent_state agent_name state_data s) = current_context s
  ∧ uploaded_images (update_agent_state agent_name state_data s) = uploaded_images s.
Proof.
  unfold update_agent_state. by destruct (agent_states s !! agent_name).
Qed.

Lemma update_context_agent_states new s :
  agent_states (update_context new s) = agent_states s.
Proof. reflexivity. Qed.

Lemma initial_agent_states_keys : dom initial_agent_states = initial_keys.
Proof.
  unfold initial_agent_states, initial_keys.
  by rewrite !dom_insert_L, dom_singleton_L, (assoc_L (∪)).
Qed.

Lemma initialize_session_state_keys raw :
  raw_agent_states raw = None →
  dom (agent_states (initialize_session_state raw)) = initial_keys.
Proof. intros H. simpl. rewrite H. apply initial_agent_states_keys. Qed.

(** C10. In a session whose agent states have the three initial keys,
    [update_agent_state] under any other name changes nothing, whatever
    fields it is given, and [get_agent_state] under that name gives the
    empty dictionary. *)
Theorem update_of_unknown_agent_is_noop
    (s : session_state) (agent_name : string) (state_data : gmap string value) :
  dom (agent_states s) = {[ "text_agent"; "vision_agent"; "coordinator" ]} →
  agent_name ≠ "text_agent" →
  agent_name ≠ "vision_agent" →
  agent_name ≠ "coordinator" →
  update_agent_state agent_name state_data s = s
  ∧ get_agent_state agent_name s = ∅.
Proof.
  intros Hkeys H1 H2 H3.
  assert (Hnone : agent_states s !! agent_name = None).
  { apply not_elem_of_dom. rewrite Hkeys.
    rewrite !elem_of_union, !elem_of_singleton. tauto. }
  split.
  - by apply update_agent_state_unknown.
  - unfold get_agent_state. by rewrite Hnone.
Qed.

Lemma update_of_unknown_agent_is_noop_witness :
  update_agent_state "coordinator_agent"
    {[ "last_decision" := VStr "text_only"; "active" := VBool true ]} fresh_session
  = fresh_session
  ∧ get_agent_state "coordinator_agent" fresh_session = ∅.
Proof.
  apply (update_of_unknown_agent_is_noop fresh_session "coordinator_agent").
  - apply initial_agent_states_keys.
  - discriminate.
  - discriminate.
  - discriminate.
Defined.

End AgentStates.

(** ** Effects of the primitive computations *)

Section Effects.

Lemma external_app tr tr' : external (tr ++ tr') = external tr ++ external tr'.
Proof. apply List.filter_app. Qed.

Lemma external_mark tr agent user_input image_data :
  external (tr ++ [EProcess agent user_input image_data]) = external tr.
Proof. rewrite external_app. simpl. apply app_nil_r. Qed.

Lemma external_is_external tr : Forall (λ ev, is_external ev = true) (external tr).
Proof.
  apply Forall_forall. intros ev Hin. apply list_elem_of_In in Hin.
  by apply List.filter_In in Hin as [_ ?].
Qed.

Lemma invocations_app agent tr tr' :
  invocations agent (tr ++ tr') = (invocations agent tr + invocations agent tr')%nat.
Proof. unfold invocations. by rewrite List.filter_app, length_app. Qed.

Lemma invocations_external agent tr :
  Forall (λ ev, is_external ev = true) tr → invocations agent tr = 0%nat.
Proof.
  unfold invocations. induction 1 as [|ev tr Hev _ IH]; [done |].
  simpl. destruct ev; try discriminate; exact IH.
Qed.

Lemma new_events_app w tr : new_events w (World (st w) (trace w ++ tr)) = tr.
Proof. unfold new_events. simpl. by rewrite drop_app_length. Qed.

Lemma keeps_ret key {A} (a : A) : keeps_entry key (ret a).
Proof. by intros w. Qed.

Lemma keeps_raise key {A} e : keeps_entry key (@raise A e).
Proof. by intros w. Qed.

Lemma keeps_read key {A} (f : session_state → A) : keeps_entry key (read f).
Proof. by intros w. Qed.

Lemma keeps_emit key ev : keeps_entry key (emit ev).
Proof. by intros w. Qed.

Lemma keeps_call key {A} ev (answer : list event → result A) :
  keeps_entry key (call ev answer).
Proof. by intros w. Qed.

Lemma keeps_bind key {A B} (m : M A) (k : A → M B) :
  keeps_entry key m → (∀ a, keeps_entry key (k a)) → keeps_entry key (bind m k).
Proof.
  intros Hm Hk w. unfold bind. specialize (Hm w).
  destruct (m w) as [[a | e] w']; simpl in *; [| exact Hm].
  by rewrite Hk.
Qed.

Lemma keeps_try key {A} (body : M A) (handler : exn → M A) :
  keeps_entry key body → (∀ e, keeps_entry key (handler e)) →
  keeps_entry key (try_except body handler).
Proof.
  intros Hb Hh w. unfold try_except. specialize (Hb w).
  destruct (body w) as [[a | e] w']; simpl in *; [exact Hb |].
  by rewrite Hh.
Qed.

Lemma keeps_if key {A} (b : bool) (m1 m2 : M A) :
  keeps_entry key m1 → keeps_entry key m2 → keeps_entry key (if b then m1 else m2).
Proof. by destruct b. Qed.

Lemma keeps_update_context key new :
  keeps_entry key (modify (StateManager.update_context new)).
Proof. by intros w. Qed.

Lemma keeps_update_state key name state_data :
  BaseAgent.state_key name ≠ key →
  keeps_entry key (BaseAgent.update_state name state_data).
Proof.
  intros Hne w. unfold BaseAgent.update_state, modify. simpl.
  by apply update_agent_state_other.
Qed.

End Effects.

Create HintDb frame discriminated.
#[local] Hint Resolve keeps_ret keeps_raise keeps_read keeps_emit keeps_call
  keeps_update_context : frame.
#[local] Hint Extern 2 (keeps_entry _ (bind _ _)) =>
  apply keeps_bind; [| intros ?] : frame.
#[local] Hint Extern 2 (keeps_entry _ (try_except _ _)) =>
  apply keeps_try; [| intros ?] : frame.
#[local] Hint Extern 2 (keeps_entry _ (if _ then _ else _)) =>
  apply keeps_if : frame.
#[local] Hint Extern 2 (keeps_entry _ (match ?x with _ => _ end)) =>
  destruct x : frame.
#[local] Hint Extern 3 (keeps_entry _ (BaseAgent.update_state _ _)) =>
  apply keeps_update_state; discriminate : frame.

(** ** The Text and Vision agents *)

Section Roles.
Variable env : environment.

(** What [TextAgent.process] does, by the answer of the client. *)
Lemma text_process_run user_input image_data w :
  let context := current_context (st w) in
  let prompt := TextAgent._enhance_prompt user_input context in
  let events :=
    [EProcess TextAgent.name user_input image_data; EGenerateText prompt context] in
  TextAgent.process env user_input image_data w =
  match generate_text_response (the_client env) (external (trace w)) prompt context with
  | Ok response =>
      (Ok response,
       World
         (StateManager.update_context
            ("User asked: " +:+ user_input +:+ nl +:+ "Agent responded: "
             +:+ upto 200 response +:+ "...")
            (StateManager.update_agent_state "text_agent"
               {[ "last_response" := VStr response; "active" := VBool true ]} (st w)))
         (trace w ++ events))
  | Raise e =>
      (Ok ("Error processing text input: " +:+ str e),
       World
         (StateManager.update_agent_state "text_agent"
            {[ "last_response" := VStr ("Error processing text input: " +:+ str e);
               "active" := VBool false ]} (st w))
         (trace w ++ events))
  end.
Proof.
  intros context prompt events.
  unfold TextAgent.process, bind, try_except, emit, read, call, modify, ret,
    BaseAgent.update_state. simpl.
  rewrite external_mark. fold context prompt.
  change (BaseAgent.state_key TextAgent.name) with "text_agent".
  destruct (generate_text_response _ _ _ _) as [response | e]; simpl;
    by rewrite <- app_assoc.
Qed.

Lemma process_image_run image_data w :
  VisionAgent._process_image env image_data w =
  match image_data with
  | FileLike h =>
      match Image_open env (external (trace w)) h with
      | Ok opened => (Ok (PILImage opened), World (st w) (trace w ++ [EImageOpen h]))
      | Raise e =>
          (Raise (Exception ("Unable to process image: " +:+ str e)),
           World (st w) (trace w ++ [EImageOpen h]))
      end
  | _ => (Ok image_data, w)
  end.
Proof.
  unfold VisionAgent._process_image, try_except, bind, call, ret, raise.
  destruct image_data as [h | h | h]; [done | | done].
  by destruct (Image_open env _ h).
Qed.

Lemma process_image_effect image_data w :
  st (snd (VisionAgent._process_image env image_data w)) = st w
  ∧ ∃ events, trace (snd (VisionAgent._process_image env image_data w))
              = trace w ++ events
              ∧ Forall (λ ev, is_external ev = true) events.
Proof.
  rewrite process_image_run. destruct image_data as [h | h | h].
  - split; [done |]. exists []. by rewrite app_nil_r.
  - destruct (Image_open env _ h); (split; [done |]); exists [EImageOpen h];
      by repeat constructor.
  - split; [done |]. exists []. by rewrite app_nil_r.
Qed.

(** What [VisionAgent.process] does, by the image it ends up with and the
    answers of the environment. *)
Lemma vision_process_run user_input image_data w :
  let marked := World (st w) (trace w ++ [EProcess VisionAgent.name user_input image_data]) in
  let context := current_context (st w) in
  let prompt := VisionAgent._enhance_vision_prompt user_input context in
  VisionAgent.process env user_input image_data w =
  match match image_data with
        | None => StateManager.get_latest_image (st w)
        | Some _ => image_data
        end with
  | None => (Ok VisionAgent.no_image_message, marked)
  | Some image =>
      match VisionAgent._process_image env image marked with
      | (Ok processed_image, w1) =>
          let events := [EGenerateVision prompt processed_image context] in
          match generate_vision_response (the_client env) (external (trace w1))
                  prompt processed_image context with
          | Ok response =>
              (Ok response,
               World
                 (StateManager.update_context
                    ("User asked about image: " +:+ user_input +:+ nl
                     +:+ "Vision analysis: " +:+ upto 200 response +:+ "...")
                    (StateManager.update_agent_state "vision_agent"
                       {[ "last_response" := VStr response; "active" := VBool true ]}
                       (st w1)))
                 (trace w1 ++ events))
          | Raise e =>
              (Ok ("Error processing image: " +:+ str e),
               World
                 (StateManager.update_agent_state "vision_agent"
                    {[ "last_response" := VStr ("Error processing image: " +:+ str e);
                       "active" := VBool false ]} (st w1))
                 (trace w1 ++ events))
          end
      | (Raise e, w1) =>
          (Ok ("Error processing image: " +:+ str e),
           World
             (StateManager.update_agent_state "vision_agent"
                {[ "last_response" := VStr ("Error processing image: " +:+ str e);
                   "active" := VBool false ]} (st w1))
             (trace w1))
      end
  end.
Proof.
  intros marked context prompt.
  unfold VisionAgent.process, bind, try_except, emit, read, modify, ret,
    BaseAgent.update_state, call.
  cbn [st trace fst snd]. fold marked.
  change (BaseAgent.state_key VisionAgent.name) with "vision_agent".
  destruct image_data as [image |].
  - destruct (VisionAgent._process_image env image marked) as [[p | e] w1];
      [| done].
    fold context prompt. by destruct (generate_vision_response _ _ _ _ _).
  - change (st marked) with (st w).
    destruct (StateManager.get_latest_image (st w)) as [image |]; [| done].
    destruct (VisionAgent._process_image env image marked) as [[p | e] w1];
      [| done].
    fold context prompt. by destruct (generate_vision_response _ _ _ _ _).
Qed.

Lemma text_process_returns user_input image_data w :
  ∃ response w' events,
    TextAgent.process env user_input image_data w = (Ok response, w')
    ∧ trace w' = trace w ++ EProcess TextAgent.name user_input image_data :: events
    ∧ Forall (λ ev, is_external ev = true) events.
Proof.
  rewrite text_process_run.
  destruct (generate_text_response _ _ _ _) as [response | e];
    do 3 eexists; (split; [reflexivity |]); (split; [reflexivity |]);
    by repeat constructor.
Qed.

Lemma vision_process_returns user_input image_data w :
  ∃ response w' events,
    VisionAgent.process env user_input image_data w = (Ok response, w')
    ∧ trace w' = trace w ++ EProcess VisionAgent.name user_input image_data :: events
    ∧ Forall (λ ev, is_external ev = true) events.
Proof.
  rewrite vision_process_run.
  destruct (match image_data with None => _ | Some _ => _ end) as [image |].
  - match goal with |- context [VisionAgent._process_image env image ?m] =>
      destruct (process_image_effect image m) as (_ & opened & Htrace & Hopened);
      destruct (VisionAgent._process_image env image m) as [[p | e] w1]
    end; simpl in Htrace.
    + destruct (generate_vision_response _ _ _ _ _) as [response | e];
        do 3 eexists; (split; [reflexivity |]); simpl; rewrite Htrace;
        rewrite <- !app_assoc; (split; [reflexivity |]);
        apply Forall_app; split; auto; by repeat constructor.
    + do 3 eexists. split; [reflexivity |]. simpl. rewrite Htrace.
      rewrite <- !app_assoc. split; [reflexivity | done].
  - do 3 eexists. split; [reflexivity |]. split; [reflexivity | constructor].
Qed.

Lemma text_process_keeps key user_input image_data :
  key ≠ "text_agent" →
  keeps_entry key (TextAgent.process env user_input image_data).
Proof.
  intros Hkey. assert (BaseAgent.state_key TextAgent.name ≠ key) by (by intros <-).
  unfold TextAgent.process. eauto 20 using keeps_update_state with frame.
Qed.

Lemma vision_process_keeps key user_input image_data :
  key ≠ "vision_agent" →
  keeps_entry key (VisionAgent.process env user_input image_data).
Proof.
  intros Hkey. assert (BaseAgent.state_key VisionAgent.name ≠ key) by (by intros <-).
  unfold VisionAgent.process, VisionAgent._process_image.
  eauto 30 using keeps_update_state with frame.
Qed.

Lemma get_latest_image_last s :
  StateManager.get_latest_image s = image <$> last (uploaded_images s).
Proof. unfold StateManager.get_latest_image. by destruct (uploaded_images s). Qed.

(** An update that writes [last_response] and [active] leaves the other
    fields of the entry alone. *)
Lemma outcome_update_fields key response active s field :
  field ≠ "last_response" →
  field ≠ "active" →
  StateManager.get_agent_state key
    (StateManager.update_agent_state key
       {[ "last_response" := VStr response; "active" := VBool active ]} s) !! field
  = StateManager.get_agent_state key s !! field.
Proof.
  intros H1 H2. unfold StateManager.get_agent_state, StateManager.update_agent_state.
  destruct (agent_states s !! key) as [d |] eqn:Hd; simpl; [| by rewrite Hd].
  rewrite lookup_insert_eq. simpl. rewrite lookup_union_r; [done |].
  rewrite lookup_insert_ne by done. by rewrite lookup_singleton_ne.
Qed.

(** C8. Called without an image, the Vision agent takes the most recently
    uploaded image, the last of [uploaded_images]: that image is what it
    hands to [_process_image], and the prepared image is what it calls the
    client's [generate_vision_response] with; the answer, the state update
    and the events of the call are those of that run, and they are the
    answer, the session state and the external calls of a call given that
    image. When nothing was uploaded either, it returns the fixed message
    and the session state, with every agent's entry, is as before. *)
Theorem vision_without_image (user_input : string) (w : world) :
  (∀ older latest,
     uploaded_images (st w) = older ++ [latest] →
     let marked :=
       World (st w) (trace w ++ [EProcess "Vision Agent" user_input None]) in
     let context := current_context (st w) in
     let prompt := VisionAgent._enhance_vision_prompt user_input context in
     let without := VisionAgent.process env user_input None w in
     let given := VisionAgent.process env user_input (Some (image latest)) w in
     StateManager.get_latest_image (st w) = Some (image latest)
     ∧ without
       = match VisionAgent._process_image env (image latest) marked with
         | (Ok processed_image, w1) =>
             match generate_vision_response (the_client env) (external (trace w1))
                     prompt processed_image context with
             | Ok response =>
                 (Ok response,
                  World
                    (StateManager.update_context
                       ("User asked about image: " +:+ user_input +:+ nl
                        +:+ "Vision analysis: " +:+ upto 200 response +:+ "...")
                       (StateManager.update_agent_state "vision_agent"
                          {[ "last_response" := VStr response;
                             "active" := VBool true ]} (st w1)))
                    (trace w1 ++ [EGenerateVision prompt processed_image context]))
             | Raise e =>
                 (Ok ("Error processing image: " +:+ str e),
                  World
                    (StateManager.update_agent_state "vision_agent"
                       {[ "last_response" :=
                            VStr ("Error processing image: " +:+ str e);
                          "active" := VBool false ]} (st w1))
                    (trace w1 ++ [EGenerateVision prompt processed_image context]))
             end
         | (Raise e, w1) =>
             (Ok ("Error processing image: " +:+ str e),
              World
                (StateManager.update_agent_state "vision_agent"
                   {[ "last_response" := VStr ("Error processing image: " +:+ str e);
                      "active" := VBool false ]} (st w1))
                (trace w1))
         end
     ∧ fst without = fst given
     ∧ st (snd without) = st (snd given)
     ∧ external (trace (snd without)) = external (trace (snd given)))
  ∧ (uploaded_images (st w) = [] →
     VisionAgent.process env user_input None w
     = (Ok "No image provided. Please upload an image for visual analysis.",
        World (st w) (trace w ++ [EProcess "Vision Agent" user_input None]))).
Proof.
  split.
  - intros older latest Himages marked context prompt without given.
    assert (Hlatest : StateManager.get_latest_image (st w) = Some (image latest)).
    { by rewrite get_latest_image_last, Himages, last_snoc. }
    split; [exact Hlatest |].
    split.
    { subst without. by rewrite vision_process_run, Hlatest. }
    subst without given marked. rewrite !vision_process_run, Hlatest.
    rewrite !process_image_run. cbn [st trace]. rewrite !external_mark.
    destruct (image latest) as [h | h | h]; cbn [st trace];
      [| destruct (Image_open env _ h) as [opened | e]; cbn [st trace] |];
      rewrite ?external_app, ?external_mark;
      try destruct (generate_vision_response _ _ _ _ _);
      cbn [fst snd st trace]; by rewrite ?external_app, ?external_mark.
  - intros Himages. rewrite vision_process_run.
    by rewrite get_latest_image_last, Himages.
Qed.

End Roles.

Lemma vision_without_image_witness :
  (fst (VisionAgent.process obliging "" None uploaded_world) = Ok "a vision answer"
   ∧ new_events uploaded_world
       (snd (VisionAgent.process obliging "" None uploaded_world))
     = [EProcess "Vision Agent" "" None;
        EImageOpen 7;
        EGenerateVision (VisionAgent._enhance_vision_prompt "" "") (PILImage 7) ""])
  ∧ VisionAgent.process obliging "" None fresh_world
    = (Ok "No image provided. Please upload an image for visual analysis.",
       World fresh_session [EProcess "Vision Agent" "" None]).
Proof.
  split.
  - destruct (vision_without_image obliging "" uploaded_world) as [Hlatest _].
    destruct (Hlatest [] (UploadedImage "09:00" (FileLike 7))) as (_ & Hrun & _);
      [reflexivity |].
    cbv zeta in Hrun. rewrite Hrun. split; reflexivity.
  - destruct (vision_without_image obliging "" fresh_world) as [_ Hnone].
    apply Hnone. reflexivity.
Defined.

Section GenerationFailure.
Variable env : environment.

(** C9. When the client raises, an agent's [process] returns the error
    string, and the session state it leaves is the one it found with
    [last_response] and [active] written into the agent's own entry: the
    rolling context, the interaction log, the other agents' entries and
    the other fields of its own entry are as before. *)
Theorem generation_failure_keeps_context
    (user_input : string) (image_data : option image_object) (w : world) (e : exn) :
  (let context := current_context (st w) in
   let after := snd (TextAgent.process env user_input image_data w) in
   let error_msg := "Error processing text input: " +:+ str e in
   generate_text_response (the_client env) (external (trace w))
     (TextAgent._enhance_prompt user_input context) context = Raise e →
   fst (TextAgent.process env user_input image_data w) = Ok error_msg
   ∧ current_context (st after) = current_context (st w)
   ∧ conversation_history (st after) = conversation_history (st w)
   ∧ st after
     = StateManager.update_agent_state "text_agent"
         {[ "last_response" := VStr error_msg; "active" := VBool false ]} (st w)
   ∧ (∀ other, other ≠ "text_agent" →
        agent_states (st after) !! other = agent_states (st w) !! other)
   ∧ (∀ field, field ≠ "last_response" → field ≠ "active" →
        StateManager.get_agent_state "text_agent" (st after) !! field
        = StateManager.get_agent_state "text_agent" (st w) !! field))
  ∧ (∀ image processed_image,
     let context := current_context (st w) in
     let after := snd (VisionAgent.process env user_input image_data w) in
     let error_msg := "Error processing image: " +:+ str e in
     let prepared :=
       VisionAgent._process_image env image
         (World (st w) (trace w ++ [EProcess "Vision Agent" user_input image_data])) in
     match image_data with
     | None => StateManager.get_latest_image (st w)
     | Some _ => image_data
     end = Some image →
     fst prepared = Ok processed_image →
     generate_vision_response (the_client env) (external (trace (snd prepared)))
       (VisionAgent._enhance_vision_prompt user_input context)
       processed_image context = Raise e →
     fst (VisionAgent.process env user_input image_data w) = Ok error_msg
     ∧ current_context (st after) = current_context (st w)
     ∧ conversation_history (st after) = conversation_history (st w)
     ∧ st after
       = StateManager.update_agent_state "vision_agent"
           {[ "last_response" := VStr error_msg; "active" := VBool false ]} (st w)
     ∧ (∀ other, other ≠ "vision_agent" →
          agent_states (st after) !! other = agent_states (st w) !! other)
     ∧ (∀ field, field ≠ "last_response" → field ≠ "active" →
          StateManager.get_agent_state "vision_agent" (st after) !! field
          = StateManager.get_agent_state "vision_agent" (st w) !! field)).
Proof.
  split.
  - intros context after error_msg Hraise.
    assert (Hrun : TextAgent.process env user_input image_data w
                   = (Ok error_msg,
                      World
                        (StateManager.update_agent_state "text_agent"
                           {[ "last_response" := VStr error_msg;
                              "active" := VBool false ]} (st w))
                        (trace w ++ [EProcess TextAgent.name user_input image_data;
                                     EGenerateText
                                       (TextAgent._enhance_prompt user_input context)
                                       context]))).
    { rewrite text_process_run. fold context. by rewrite Hraise. }
    subst after. rewrite Hrun. cbn [fst snd st].
    pose proof (update_agent_state_stores "text_agent"
                  {[ "last_response" := VStr error_msg; "active" := VBool false ]}
                  (st w)) as (Hhistory & Hcontext & _).
    repeat split; try done.
    + intros other Hother. by apply update_agent_state_other.
    + intros field H1 H2. by apply outcome_update_fields.
  - intros image processed_image context after error_msg prepared
      Himage Hprepared Hraise.
    pose proof (process_image_effect env image
                  (World (st w)
                     (trace w ++ [EProcess "Vision Agent" user_input image_data])))
      as [Hst _].
    fold prepared in Hst. cbn [st] in Hst.
    assert (Hrun : VisionAgent.process env user_input image_data w
                   = (Ok error_msg,
                      World
                        (StateManager.update_agent_state "vision_agent"
                           {[ "last_response" := VStr error_msg;
                              "active" := VBool false ]} (st w))
                        (trace (snd prepared)
                         ++ [EGenerateVision
                               (VisionAgent._enhance_vision_prompt user_input context)
                               processed_image context]))).
    { rewrite vision_process_run, Himage.
      change (VisionAgent._process_image env image _) with prepared.
      destruct prepared as [[p | e'] w1]; simpl in Hprepared; [| done].
      injection Hprepared as ->. simpl in Hraise, Hst. fold context.
      by rewrite Hraise, Hst. }
    subst after. rewrite Hrun. cbn [fst snd st].
    pose proof (update_agent_state_stores "vision_agent"
                  {[ "last_response" := VStr error_msg; "active" := VBool false ]}
                  (st w)) as (Hhistory & Hcontext & _).
    repeat split; try done.
    + intros other Hother. by apply update_agent_state_other.
    + intros field H1 H2. by apply outcome_update_fields.
Qed.

End GenerationFailure.

Lemma generation_failure_keeps_context_witness :
  (fst (TextAgent.process failing_gateway "hello" None fresh_world)
   = Ok "Error processing text input: quota exceeded"
   ∧ current_context
       (st (snd (TextAgent.process failing_gateway "hello" None fresh_world))) = "")
  ∧ (fst (VisionAgent.process failing_gateway "hello" None uploaded_world)
     = Ok "Error processing image: quota exceeded"
     ∧ current_context
         (st (snd (VisionAgent.process failing_gateway "hello" None uploaded_world)))
       = "").
Proof.
  destruct (generation_failure_keeps_context failing_gateway "hello" None fresh_world
              (Exception "quota exceeded")) as [Htext _].
  destruct (generation_failure_keeps_context failing_gateway "hello" None uploaded_world
              (Exception "quota exceeded")) as [_ Hvision].
  split.
  - destruct Htext as (H1 & H2 & _); [reflexivity |]. split; [exact H1 | exact H2].
  - destruct (Hvision (FileLike 7) (PILImage 7)) as (H1 & H2 & _);
      [reflexivity | reflexivity | reflexivity |].
    split; [exact H1 | exact H2].
Defined.

(** ** The Coordinator *)

Section Coordinator.
Variable env : environment.
Import CoordinatorAgent.

Lemma log_action_effect name action details w :
  st (snd (BaseAgent.log_action env name action details w)) = st w
  ∧ ∃ events,
      trace (snd (BaseAgent.log_action env name action details w)) = trace w ++ events
      ∧ Forall (λ ev, is_external ev = true) events.
Proof.
  unfold BaseAgent.log_action, BaseAgent.write, bind, call, ret. cbn [st trace].
  destruct (st_write env (external (trace w)) _) as [[] | e]; cbn [snd st trace].
  - destruct (truthy details); cbn [snd st trace].
    + split; [done |]. eexists. rewrite <- app_assoc.
      split; [reflexivity |]. by repeat constructor.
    + split; [done |]. eexists. split; [reflexivity |]. by repeat constructor.
  - split; [done |]. eexists. split; [reflexivity |]. by repeat constructor.
Qed.

Lemma log_action_keeps key name action details :
  keeps_entry key (BaseAgent.log_action env name action details).
Proof. intros w. by destruct (log_action_effect name action details w) as [-> _]. Qed.

(** What [_combine_responses] does: one call to the client, and the
    banner or the fallback by its answer. It does not raise. *)
Lemma combine_responses_run vision_response text_response original_query w :
  let prompt := synthesis_prompt original_query vision_response text_response in
  _combine_responses env vision_response text_response original_query w =
  (Ok match generate_text_response (the_client env) (external (trace w)) prompt "" with
      | Ok synthesized => "**Comprehensive Analysis:**" +:+ nl +:+ nl +:+ synthesized
      | Raise _ =>
          "**Visual Analysis:**" +:+ nl +:+ vision_response +:+ nl +:+ nl
          +:+ "**Additional Analysis:**" +:+ nl +:+ text_response
      end,
   World (st w) (trace w ++ [EGenerateText prompt ""])).
Proof.
  intros prompt. unfold _combine_responses, try_except, bind, call, ret.
  fold prompt. by destruct (generate_text_response _ _ _ _).
Qed.

Lemma combine_responses_keeps key vision_response text_response original_query :
  keeps_entry key (_combine_responses env vision_response text_response original_query).
Proof. intros w. by rewrite combine_responses_run. Qed.

Lemma route_request_keeps_coordinator user_input image_data input_type has_image :
  keeps_entry "coordinator"
    (_route_request env user_input image_data input_type has_image).
Proof.
  unfold _route_request.
  eauto 20 using log_action_keeps, combine_responses_keeps,
    text_process_keeps, vision_process_keeps with frame.
Qed.

(** [process] never writes the entry stored under ["coordinator"]: its
    own updates go to the key its name gives, ["coordinator_agent"]. *)
Lemma process_keeps_coordinator user_input image_data :
  keeps_entry "coordinator" (process env user_input image_data).
Proof.
  unfold process.
  eauto 20 using route_request_keeps_coordinator with frame.
Qed.

(** [process] returns a string whatever the environment does. *)
Lemma process_never_raises user_input image_data w :
  ∃ response, fst (process env user_input image_data w) = Ok response.
Proof.
  unfold process, try_except.
  destruct (bind _ _ w) as [[response | e] w']; [by exists response |].
  unfold bind, BaseAgent.update_state, modify, ret. simpl. eauto.
Qed.

(** When routing raises, [process] answers with the coordinator error
    and the session state routing left behind. *)
Lemma process_error_path user_input image_data w e w' :
  _route_request env user_input image_data
    (_determine_input_type user_input (is_not_None image_data))
    (is_not_None image_data) w = (Raise e, w') →
  process env user_input image_data w
  = (Ok ("Coordinator error: " +:+ str e),
     World (StateManager.update_agent_state "coordinator_agent"
              {[ "last_decision" := VStr "error"; "active" := VBool false ]} (st w'))
       (trace w')).
Proof.
  intros Hroute. unfold process, try_except, bind. rewrite Hroute.
  reflexivity.
Qed.

(** The run of a [vision_with_text] turn whose routing announcement is
    written without fault: the Vision agent, the Text agent on the
    augmented query, the synthesis, the coordinator's update. *)
Lemma vision_with_text_run user_input image w :
  _determine_input_type user_input true = vision_with_text →
  fst (BaseAgent.log_action env name "Coordinating Multi-Modal Processing"
         "Using both Vision and Text agents" w) = Ok tt →
  ∃ w0 vision_response w1 text_response w2,
    BaseAgent.log_action env name "Coordinating Multi-Modal Processing"
      "Using both Vision and Text agents" w = (Ok tt, w0)
    ∧ VisionAgent.process env user_input (Some image) w0 = (Ok vision_response, w1)
    ∧ TextAgent.process env
        ("Based on this image analysis: " +:+ vision_response +:+ nl +:+ nl
         +:+ "User's additional question: " +:+ user_input) None w1
      = (Ok text_response, w2)
    ∧ process env user_input (Some image) w
      = (fst (_combine_responses env vision_response text_response user_input w2),
         World
           (StateManager.update_agent_state "coordinator_agent"
              {[ "last_decision" := VStr vision_with_text;
                 "active" := VBool true;
                 "last_routing" := VDict (_get_routing_info vision_with_text true) ]}
              (st w2))
           (trace w2
            ++ [EGenerateText
                  (synthesis_prompt user_input vision_response text_response) ""])).
Proof.
  intros Hclass Hlog.
  destruct (BaseAgent.log_action env name "Coordinating Multi-Modal Processing"
              "Using both Vision and Text agents" w) as [[[] | e] w0] eqn:Hlog0;
    [| discriminate].
  destruct (vision_process_returns env user_input (Some image) w0)
    as (vision_response & w1 & ? & Hvision & _).
  destruct (text_process_returns env
              ("Based on this image analysis: " +:+ vision_response +:+ nl +:+ nl
               +:+ "User's additional question: " +:+ user_input) None w1)
    as (text_response & w2 & ? & Htext & _).
  exists w0, vision_response, w1, text_response, w2.
  split; [done |]. split; [done |]. split; [done |].
  unfold process. cbn [is_not_None]. rewrite Hclass.
  unfold _route_request.
  change (String.eqb vision_with_text "text_only") with false.
  change (String.eqb vision_with_text "vision_primary") with false.
  change (String.eqb vision_with_text "vision_with_text") with true.
  cbv iota. unfold try_except, bind.
  rewrite Hlog0, Hvision, Htext, combine_responses_run.
  reflexivity.
Qed.

(** C4. In a turn classified [vision_with_text] (the routing
    announcement having been written), the events of the turn are, in
    this order: the announcement; the entry into the Vision agent with the
    original text and the image, and its external calls; the entry into
    the Text agent with the augmented query and no image, and its external
    calls; the synthesis call to the client. The augmented query contains
    the Vision agent's answer and the original text, and each agent is
    entered exactly once. *)
Theorem vision_with_text_invokes_both
    (user_input : string) (image : image_object) (w : world) :
  _determine_input_type user_input (is_not_None (Some image)) = vision_with_text →
  fst (BaseAgent.log_action env name "Coordinating Multi-Modal Processing"
         "Using both Vision and Text agents" w) = Ok tt →
  ∃ announced vision_response vision_calls text_response text_calls,
    let w0 :=
      snd (BaseAgent.log_action env name "Coordinating Multi-Modal Processing"
             "Using both Vision and Text agents" w) in
    let w1 := snd (VisionAgent.process env user_input (Some image) w0) in
    let augmented :=
      "Based on this image analysis: " +:+ vision_response +:+ nl +:+ nl
      +:+ "User's additional question: " +:+ user_input in
    let turn := new_events w (snd (process env user_input (Some image) w)) in
    fst (VisionAgent.process env user_input (Some image) w0) = Ok vision_response
    ∧ fst (TextAgent.process env augmented None w1) = Ok text_response
    ∧ turn
      = announced
        ++ [EProcess "Vision Agent" user_input (Some image)] ++ vision_calls
        ++ [EProcess "Text Agent" augmented None] ++ text_calls
        ++ [EGenerateText
              (synthesis_prompt user_input vision_response text_response) ""]
    ∧ Forall (λ ev, is_external ev = true) (announced ++ vision_calls ++ text_calls)
    ∧ is_substring vision_response augmented
    ∧ is_substring user_input augmented
    ∧ invocations "Vision Agent" turn = 1%nat
    ∧ invocations "Text Agent" turn = 1%nat.
Proof.
  intros Hclass Hlog.
  destruct (vision_with_text_run user_input image w Hclass Hlog)
    as (w0 & vision_response & w1 & text_response & w2
        & Hlog0 & Hvision & Htext & Hrun).
  destruct (log_action_effect name "Coordinating Multi-Modal Processing"
              "Using both Vision and Text agents" w)
    as (_ & announced & Hannounced & Hext0).
  rewrite Hlog0 in Hannounced. cbn [snd] in Hannounced.
  destruct (vision_process_returns env user_input (Some image) w0)
    as (? & ? & vision_calls & Hvision' & Hcalls1 & Hext1).
  rewrite Hvision in Hvision'. injection Hvision' as <- <-.
  destruct (text_process_returns env
              ("Based on this image analysis: " +:+ vision_response +:+ nl +:+ nl
               +:+ "User's additional question: " +:+ user_input) None w1)
    as (? & ? & text_calls & Htext' & Hcalls2 & Hext2).
  rewrite Htext in Htext'. injection Htext' as <- <-.
  exists announced, vision_response, vision_calls, text_response, text_calls.
  rewrite Hlog0. cbn [snd]. rewrite Hvision. cbn [snd fst]. rewrite Htext.
  cbn [fst].
  assert (Hturn :
    new_events w (snd (process env user_input (Some image) w))
    = announced
      ++ [EProcess "Vision Agent" user_input (Some image)] ++ vision_calls
      ++ [EProcess "Text Agent"
            ("Based on this image analysis: " +:+ vision_response +:+ nl +:+ nl
             +:+ "User's additional question: " +:+ user_input) None]
      ++ text_calls
      ++ [EGenerateText
            (synthesis_prompt user_input vision_response text_response) ""]).
  { rewrite Hrun. unfold new_events. cbn [snd trace].
    rewrite Hcalls2, Hcalls1, Hannounced.
    rewrite <- !app_assoc. rewrite drop_app_length. reflexivity. }
  rewrite Hturn.
  split; [done |]. split; [done |]. split; [done |].
  split; [by rewrite !Forall_app |].
  split.
  { exists "Based on this image analysis: ",
      (nl +:+ nl +:+ "User's additional question: " +:+ user_input).
    reflexivity. }
  split.
  { exists ("Based on this image analysis: " +:+ vision_response +:+ nl +:+ nl
            +:+ "User's additional question: "), "".
    by rewrite append_empty_r, !append_assoc. }
  rewrite !invocations_app.
  rewrite !(invocations_external _ announced), !(invocations_external _ vision_calls),
    !(invocations_external _ text_calls) by done.
  split; reflexivity.
Qed.

(** C7. [_combine_responses] makes one synthesis call and never raises:
    when the call raises, its value is the two answers under the labels
    "Visual Analysis" and "Additional Analysis"; when it returns, its value
    is the answer under the banner "Comprehensive Analysis". In a turn
    classified [vision_with_text] (the routing announcement having been
    written) this value, computed from the answers of the Vision and the
    Text agent, is what [process] returns. *)
Theorem synthesis_failure_falls_back
    (user_input : string) (image : image_object) (w : world) :
  (∀ vision_response text_response original_query w2,
     fst (_combine_responses env vision_response text_response original_query w2)
     = Ok match generate_text_response (the_client env) (external (trace w2))
                  (synthesis_prompt original_query vision_response text_response) ""
          with
          | Ok synthesized =>
              "**Comprehensive Analysis:**" +:+ nl +:+ nl +:+ synthesized
          | Raise _ =>
              "**Visual Analysis:**" +:+ nl +:+ vision_response +:+ nl +:+ nl
              +:+ "**Additional Analysis:**" +:+ nl +:+ text_response
          end)
  ∧ (_determine_input_type user_input (is_not_None (Some image)) = vision_with_text →
     fst (BaseAgent.log_action env name "Coordinating Multi-Modal Processing"
            "Using both Vision and Text agents" w) = Ok tt →
     ∃ vision_response text_response,
       let w0 :=
         snd (BaseAgent.log_action env name "Coordinating Multi-Modal Processing"
                "Using both Vision and Text agents" w) in
       let w1 := snd (VisionAgent.process env user_input (Some image) w0) in
       let augmented :=
         "Based on this image analysis: " +:+ vision_response +:+ nl +:+ nl
         +:+ "User's additional question: " +:+ user_input in
       let w2 := snd (TextAgent.process env augmented None w1) in
       fst (VisionAgent.process env user_input (Some image) w0) = Ok vision_response
       ∧ fst (TextAgent.process env augmented None w1) = Ok text_response
       ∧ fst (process env user_input (Some image) w)
         = fst (_combine_responses env vision_response text_response user_input w2)).
Proof.
  split.
  - intros vision_response text_response original_query w2.
    by rewrite combine_responses_run.
  - intros Hclass Hlog.
    destruct (vision_with_text_run user_input image w Hclass Hlog)
      as (w0 & vision_response & w1 & text_response & w2
          & Hlog0 & Hvision & Htext & Hrun).
    exists vision_response, text_response.
    rewrite Hlog0. cbn [snd]. rewrite Hvision. cbn [snd fst]. rewrite Htext.
    cbn [snd fst]. by rewrite Hrun.
Qed.

End Coordinator.

Lemma vision_with_text_invokes_both_witness :
  let turn :=
    new_events fresh_world
      (snd (CoordinatorAgent.process obliging "Why does this matter to me?"
              (Some (PILImage 1)) fresh_world)) in
  invocations "Vision Agent" turn = 1%nat ∧ invocations "Text Agent" turn = 1%nat.
Proof.
  destruct (vision_with_text_invokes_both obliging "Why does this matter to me?"
              (PILImage 1) fresh_world)
    as (announced & vision_response & vision_calls & text_response & text_calls & H);
    [reflexivity | reflexivity |].
  cbv zeta in H. destruct H as (_ & _ & _ & _ & _ & _ & Hvision & Htext).
  exact (conj Hvision Htext).
Defined.

Lemma synthesis_failure_falls_back_witness :
  fst (CoordinatorAgent.process no_synthesis "Why does this matter to me?"
         (Some (PILImage 1)) fresh_world)
  = Ok ("**Visual Analysis:**" +:+ nl +:+ "a vision answer" +:+ nl +:+ nl
        +:+ "**Additional Analysis:**" +:+ nl +:+ "a text answer").
Proof.
  destruct (synthesis_failure_falls_back no_synthesis "Why does this matter to me?"
              (PILImage 1) fresh_world) as [Hcombine Hturn].
  destruct Hturn as (vision_response & text_response & Hvision & Htext & Hprocess);
    [reflexivity | reflexivity |].
  cbv zeta in Hvision, Htext, Hprocess.
  rewrite Hprocess, Hcombine.
  vm_compute in Hvision. injection Hvision as <-.
  vm_compute in Htext. injection Htext as <-.
  reflexivity.
Defined.

(** C2, on a text-only turn of a fresh session. Routing returns normally
    and the turn is classified [text_only]; afterwards the entry stored
    under ["coordinator"] still has the empty [last_decision] it was created
    with, and the coordinator reading its own state back gets the empty
    dictionary, and so reports itself inactive. *)
Theorem decision_not_recorded :
  let question := "What's the capital of France?" in
  let turn := CoordinatorAgent.process obliging question None fresh_world in
  fst (CoordinatorAgent._route_request obliging question None
         (CoordinatorAgent._determine_input_type question false) false fresh_world)
  = Ok "a text answer"
  ∧ fst turn = Ok "a text answer"
  ∧ CoordinatorAgent._determine_input_type question false = text_only
  ∧ BaseAgent.state_key CoordinatorAgent.name = "coordinator_agent"
  ∧ agent_states (st (snd turn)) !! "coordinator"
    = Some {[ "active" := VBool true; "last_decision" := VStr "" ]}
  ∧ fst (BaseAgent.get_state CoordinatorAgent.name (snd turn)) = Ok ∅
  ∧ fst (CoordinatorAgent.get_status (snd turn)) = Ok "ğŸ”´ Inactive".
Proof. vm_compute. repeat split. Qed.

(** C3, on a turn whose routing announcement cannot be written. [process]
    returns the coordinator error as a string; the session state is the
    fresh one still: the entry under ["coordinator"] has [active] true and
    the empty [last_decision], not [active] false and [last_decision]
    ["error"]. *)
Theorem coordinator_error_not_recorded :
  let turn := CoordinatorAgent.process broken_page "hello" None fresh_world in
  fst (CoordinatorAgent._route_request broken_page "hello" None
         (CoordinatorAgent._determine_input_type "hello" false) false fresh_world)
  = Raise (Exception "page closed")
  ∧ fst turn = Ok "Coordinator error: page closed"
  ∧ st (snd turn) = fresh_session
  ∧ agent_states (st (snd turn)) !! "coordinator"
    = Some {[ "active" := VBool true; "last_decision" := VStr "" ]}
  ∧ fst (BaseAgent.get_state CoordinatorAgent.name (snd turn)) = Ok ∅.
Proof. vm_compute. repeat split. Qed.

(** * Further properties of the code *)

(** ** The session stores, continued *)

Section MoreStores.
Import StateManager.

Lemma str_drop_app n s1 s2 :
  (n ≤ String.length s1)%nat → drop n (s1 +:+ s2) = drop n s1 +:+ s2.
Proof.
  revert s1. induction n as [|n IH]; intros s1 Hn; [by destruct s1 |].
  destruct s1 as [|c s1]; simpl in *; [lia |]. apply IH. lia.
Qed.

Lemma str_drop_app_ge n s1 s2 :
  (String.length s1 ≤ n)%nat → drop n (s1 +:+ s2) = drop (n - String.length s1) s2.
Proof.
  revert n. induction s1 as [|c s1 IH]; intros n Hn; simpl in *.
  - by rewrite Nat.sub_0_r.
  - destruct n as [|n]; [lia |]. simpl. apply IH. lia.
Qed.

Lemma str_drop_all n s : (String.length s ≤ n)%nat → drop n s = "".
Proof.
  revert s. induction n as [|n IH]; intros [|c s] Hn; simpl in *;
    [done | lia | done | apply IH; lia].
Qed.

Lemma list_from_positive {A} (k : Z) (l : list A) :
  1 ≤ k → list_from (- k) l = list.drop (length l - Z.to_nat k) l.
Proof.
  intros Hk. unfold list_from, slice_index.
  destruct (Z.ltb_spec (- k) 0); [| lia]. f_equal. lia.
Qed.

Lemma list_from_nonnegative {A} (k : Z) (l : list A) :
  0 ≤ k → list_from k l = list.drop (Z.to_nat k) l.
Proof.
  intros Hk. unfold list_from, slice_index.
  destruct (Z.ltb_spec k 0); [lia |].
  destruct (Z.min_spec k (Z.of_nat (length l))) as [[? ->] | [? ->]]; [done |].
  rewrite Nat2Z.id. rewrite (drop_ge l (length l)) by lia.
  by rewrite (drop_ge l (Z.to_nat k)) by lia.
Qed.

(** What [get_recent_history] returns, by its limit. From 1 on: the last
    [limit] records, and the whole log when it has no more than that. At 0:
    the whole log. Below 0: the log without its first [- limit] records. *)
Theorem recent_history_by_limit (limit : Z) (s : session_state) :
  let log := conversation_history s in
  (1 ≤ limit →
   get_recent_history limit s = list.drop (length log - Z.to_nat limit) log
   ∧ length (get_recent_history limit s) = (Z.to_nat limit `min` length log)%nat)
  ∧ (Z.of_nat (length log) ≤ limit → get_recent_history limit s = log)
  ∧ (limit ≤ 0 → get_recent_history limit s = list.drop (Z.to_nat (- limit)) log).
Proof.
  intros log.
  assert (Hget : get_recent_history limit s = list_from (- limit) log).
  { subst log. unfold get_recent_history.
    destruct (conversation_history s); [| done].
    unfold list_from. by rewrite drop_nil. }
  rewrite Hget. split; [| split].
  - intros Hlimit. rewrite list_from_positive by done.
    split; [done |]. rewrite length_drop. lia.
  - intros Hlimit. destruct (Z.le_gt_cases 1 limit) as [H1 | H0].
    + rewrite list_from_positive by done.
      replace (length log - Z.to_nat limit)%nat with 0%nat by lia. done.
    + assert (log = []) as -> by (apply length_zero_iff_nil; lia).
      unfold list_from. by rewrite drop_nil.
  - intros Hlimit. apply list_from_nonnegative. lia.
Qed.

Lemma recent_history_by_limit_witness :
  let first := Interaction "09:00" "hello" "hi" "Coordinator" false in
  let second := Interaction "09:01" "thanks" "welcome" "Coordinator" false in
  let third := Interaction "09:02" "bye" "goodbye" "Coordinator" false in
  let s := SessionState [first; second; third] "" [] initial_agent_states in
  get_recent_history 2 s = [second; third]
  ∧ get_recent_history 10 s = [first; second; third]
  ∧ get_recent_history (-1) s = [second; third].
Proof.
  intros first second third s.
  destruct (recent_history_by_limit 2 s) as ([H2 _] & _ & _); [lia |].
  destruct (recent_history_by_limit 10 s) as (_ & H10 & _).
  destruct (recent_history_by_limit (-1) s) as (_ & _ & Hneg).
  split; [exact H2 |]. split; [apply H10; simpl; lia | apply Hneg; lia].
Defined.

(** A record filed with [add_to_history] goes to the end of the log, the
    earlier records stay as they were, and [get_recent_history] with any
    limit from 1 on returns it last. *)
Theorem filed_turn_is_most_recent
    (now user_input agent_response agent_type : string)
    (image_data : option image_object) (limit : Z) (s : session_state) :
  1 ≤ limit →
  let record :=
    Interaction now user_input agent_response agent_type (is_not_None image_data) in
  let s' := add_to_history now user_input agent_response agent_type image_data s in
  conversation_history s' = conversation_history s ++ [record]
  ∧ last (get_recent_history limit s') = Some record
  ∧ length (get_recent_history limit s')
    = (Z.to_nat limit `min` S (length (conversation_history s)))%nat.
Proof.
  intros Hlimit record s'.
  assert (Hlog : conversation_history s' = conversation_history s ++ [record])
    by reflexivity.
  split; [exact Hlog |].
  assert (Hget : get_recent_history limit s'
                 = list_from (- limit) (conversation_history s')).
  { unfold get_recent_history.
    destruct (conversation_history s'); [| done].
    unfold list_from. by rewrite drop_nil. }
  rewrite Hget, list_from_positive, Hlog by done.
  rewrite length_app. cbn [length].
  split.
  - rewrite drop_app_le by lia. by rewrite last_snoc.
  - rewrite length_drop, length_app. cbn [length]. lia.
Qed.

Lemma filed_turn_is_most_recent_witness :
  last (get_recent_history 5
          (add_to_history "09:00" "hello" "hi" "Coordinator" None fresh_session))
  = Some (Interaction "09:00" "hello" "hi" "Coordinator" false).
Proof.
  apply (filed_turn_is_most_recent "09:00" "hello" "hi" "Coordinator" None 5
           fresh_session).
  lia.
Defined.

(** [update_context] keeps what is newest. New content of at most 1000
    characters is the end of the context afterwards; of longer content, the
    context afterwards is the last 1000 characters. *)
Theorem update_context_keeps_newest (new_context : string) (s : session_state) :
  ((String.length new_context ≤ 1000)%nat →
   ∃ before, current_context (update_context new_context s) = before +:+ new_context)
  ∧ ((1000 < String.length new_context)%nat →
     String.length (current_context (update_context new_context s)) = 1000%nat
     ∧ ∃ dropped,
         new_context = dropped +:+ current_context (update_context new_context s)).
Proof.
  unfold update_context. cbn [current_context].
  set (c := if truthy (current_context s) then _ else _).
  assert (Hc : ∃ older, c = older +:+ new_context).
  { subst c. destruct (truthy (current_context s)).
    - exists (current_context s +:+ nl). by rewrite append_assoc.
    - by exists "". }
  destruct Hc as [older Hc].
  assert (Hlen : String.length c = (String.length older + String.length new_context)%nat)
    by (by rewrite Hc, length_append).
  split.
  - intros Hshort.
    destruct (Z.ltb_spec 1000 (Z.of_nat (String.length c))) as [Hlong | _];
      [| by exists older].
    exists (drop (String.length c - 1000) older).
    unfold from, slice_index. destruct (Z.ltb_spec (-1000) 0); [| lia].
    replace (Z.to_nat (0 `max` (-1000 + Z.of_nat (String.length c))))
      with (String.length c - 1000)%nat by lia.
    assert (Hk : (String.length c - 1000 ≤ String.length older)%nat) by lia.
    revert Hk. generalize (String.length c - 1000)%nat. intros k Hk.
    rewrite Hc. by apply str_drop_app.
  - intros Hlong.
    destruct (Z.ltb_spec 1000 (Z.of_nat (String.length c))) as [_ | ?]; [| lia].
    unfold from, slice_index. destruct (Z.ltb_spec (-1000) 0); [| lia].
    replace (Z.to_nat (0 `max` (-1000 + Z.of_nat (String.length c))))
      with (String.length c - 1000)%nat by lia.
    split; [rewrite str_length_drop; lia |].
    exists (take (String.length c - 1000 - String.length older) new_context).
    assert (Hk : (String.length older ≤ String.length c - 1000)%nat) by lia.
    revert Hk. generalize (String.length c - 1000)%nat. intros k Hk.
    rewrite Hc, str_drop_app_ge by done.
    symmetry. apply str_take_drop.
Qed.

Lemma update_context_keeps_newest_witness :
  (∃ before,
     current_context (update_context "User asked: hello" fresh_session)
     = before +:+ "User asked: hello")
  ∧ String.length (current_context (update_context (filler 1001) fresh_session))
    = 1000%nat.
Proof.
  split.
  - destruct (update_context_keeps_newest "User asked: hello" fresh_session)
      as [Hshort _].
    apply Hshort. apply Nat.leb_le. reflexivity.
  - destruct (update_context_keeps_newest (filler 1001) fresh_session)
      as [_ Hlong].
    apply Hlong. apply Nat.ltb_lt. reflexivity.
Defined.

(** Reading an agent's state back after an update. For an agent that has
    an entry, each field given in the update reads as given and every other
    field reads as before; the entries of the other agents read as
    before. *)
Theorem agent_state_after_update
    (agent_name : string) (state_data : gmap string value) (s : session_state) :
  is_Some (agent_states s !! agent_name) →
  (∀ field,
     get_agent_state agent_name (update_agent_state agent_name state_data s) !! field
     = match state_data !! field with
       | Some v => Some v
       | None => get_agent_state agent_name s !! field
       end)
  ∧ (∀ other, other ≠ agent_name →
       get_agent_state other (update_agent_state agent_name state_data s)
       = get_agent_state other s).
Proof.
  intros [d Hd]. split.
  - intros field. unfold get_agent_state.
    rewrite (update_agent_state_known _ _ _ _ Hd), Hd. simpl.
    rewrite lookup_union. by destruct (state_data !! field), (d !! field).
  - intros other Hother. unfold get_agent_state.
    by rewrite update_agent_state_other.
Qed.

Lemma agent_state_after_update_witness :
  let s := update_agent_state "text_agent"
             {[ "last_response" := VStr "boom"; "active" := VBool false ]}
             fresh_session in
  get_agent_state "text_agent" s !! "active" = Some (VBool false)
  ∧ get_agent_state "vision_agent" s = get_agent_state "vision_agent" fresh_session.
Proof.
  intros s.
  destruct (agent_state_after_update "text_agent"
              {[ "last_response" := VStr "boom"; "active" := VBool false ]}
              fresh_session) as [Hown Hother].
  - by eexists.
  - split; [apply (Hown "active") | by apply Hother].
Defined.

End MoreStores.

(** ** What a turn keeps *)

Section Maintained.

Lemma maintains_ret P {A} (a : A) : maintains P (ret a).
Proof. by intros w. Qed.

Lemma maintains_raise P {A} e : maintains P (@raise A e).
Proof. by intros w. Qed.

Lemma maintains_read P {A} (f : session_state → A) : maintains P (read f).
Proof. by intros w. Qed.

Lemma maintains_emit P ev : maintains P (emit ev).
Proof. by intros w. Qed.

Lemma maintains_call P {A} ev (answer : list event → result A) :
  maintains P (call ev answer).
Proof. by intros w. Qed.

Lemma maintains_bind P {A B} (m : M A) (k : A → M B) :
  maintains P m → (∀ a, maintains P (k a)) → maintains P (bind m k).
Proof.
  intros Hm Hk w HP. unfold bind. specialize (Hm w HP).
  destruct (m w) as [[a | e] w']; simpl in *; [| exact Hm].
  by apply Hk.
Qed.

Lemma maintains_try P {A} (body : M A) (handler : exn → M A) :
  maintains P body → (∀ e, maintains P (handler e)) →
  maintains P (try_except body handler).
Proof.
  intros Hb Hh w HP. unfold try_except. specialize (Hb w HP).
  destruct (body w) as [[a | e] w']; simpl in *; [exact Hb |].
  by apply Hh.
Qed.

Lemma maintains_if P {A} (b : bool) (m1 m2 : M A) :
  maintains P m1 → maintains P m2 → maintains P (if b then m1 else m2).
Proof. by destruct b. Qed.

Lemma maintains_update_state P name state_data :
  stable P → maintains P (BaseAgent.update_state name state_data).
Proof. intros HP w Hw. by apply HP. Qed.

Lemma maintains_update_context P new_context :
  stable P → maintains P (modify (StateManager.update_context new_context)).
Proof. intros HP w Hw. by apply HP. Qed.

End Maintained.

Create HintDb kept discriminated.
#[local] Hint Resolve maintains_ret maintains_raise maintains_read maintains_emit
  maintains_call maintains_update_state maintains_update_context : kept.
#[local] Hint Extern 2 (maintains _ (bind _ _)) =>
  apply maintains_bind; [| intros ?] : kept.
#[local] Hint Extern 2 (maintains _ (try_except _ _)) =>
  apply maintains_try; [| intros ?] : kept.
#[local] Hint Extern 2 (maintains _ (if _ then _ else _)) =>
  apply maintains_if : kept.
#[local] Hint Extern 2 (maintains _ (match ?x with _ => _ end)) =>
  destruct x : kept.

Section TurnInvariants.
Variable env : environment.

Lemma text_process_maintains P user_input image_data :
  stable P → maintains P (TextAgent.process env user_input image_data).
Proof. intros HP. unfold TextAgent.process. eauto 20 with kept. Qed.

Lemma vision_process_maintains P user_input image_data :
  stable P → maintains P (VisionAgent.process env user_input image_data).
Proof.
  intros HP. unfold VisionAgent.process, VisionAgent._process_image.
  eauto 30 with kept.
Qed.

(** A turn writes to the session only through [update_agent_state] and
    [update_context]: what those two keep, [process] keeps. *)
Lemma process_maintains P user_input image_data :
  stable P → maintains P (CoordinatorAgent.process env user_input image_data).
Proof.
  intros HP.
  unfold CoordinatorAgent.process, CoordinatorAgent._route_request,
    CoordinatorAgent._combine_responses, BaseAgent.log_action, BaseAgent.write.
  eauto 30 using text_process_maintains, vision_process_maintains with kept.
Qed.

(** The interaction log and the uploaded images are the caller's:
    [CoordinatorAgent.process] leaves both as it found them, in every
    environment and on every path. *)
Theorem process_leaves_log_and_uploads
    (user_input : string) (image_data : option image_object) (w : world) :
  let after := st (snd (CoordinatorAgent.process env user_input image_data w)) in
  conversation_history after = conversation_history (st w)
  ∧ uploaded_images after = uploaded_images (st w).
Proof.
  apply (process_maintains
           (λ s, conversation_history s = conversation_history (st w)
                 ∧ uploaded_images s = uploaded_images (st w)));
    [| done].
  intros s [Hlog Himages]. split.
  - intros agent_name state_data.
    destruct (update_agent_state_stores agent_name state_data s) as (-> & _ & ->).
    done.
  - done.
Qed.

(** No turn adds or removes an agent: the keys of [agent_states] after
    [CoordinatorAgent.process] are the keys before. *)
Theorem process_keeps_agent_keys
    (user_input : string) (image_data : option image_object) (w : world) :
  dom (agent_states (st (snd (CoordinatorAgent.process env user_input image_data w))))
  = dom (agent_states (st w)).
Proof.
  apply (process_maintains (λ s, dom (agent_states s) = dom (agent_states (st w))));
    [| done].
  intros s Hs. split.
  - intros agent_name state_data. by rewrite update_agent_state_keys.
  - done.
Qed.

(** A turn keeps the rolling context within its 1000 characters. *)
Theorem process_keeps_context_cap
    (user_input : string) (image_data : option image_object) (w : world) :
  (String.length (current_context (st w)) ≤ 1000)%nat →
  (String.length
     (current_context
        (st (snd (CoordinatorAgent.process env user_input image_data w)))) ≤ 1000)%nat.
Proof.
  apply (process_maintains (λ s, (String.length (current_context s) ≤ 1000)%nat)).
  intros s Hs. split.
  - intros agent_name state_data.
    by destruct (update_agent_state_stores agent_name state_data s) as (_ & -> & _).
  - intros new_context. apply update_context_length.
Qed.

End TurnInvariants.

Lemma process_keeps_context_cap_witness :
  (String.length
     (current_context
        (st (snd (CoordinatorAgent.process obliging "Why does this matter to me?"
                    (Some (PILImage 1)) fresh_world)))) ≤ 1000)%nat.
Proof.
  apply (process_keeps_context_cap obliging "Why does this matter to me?"
           (Some (PILImage 1)) fresh_world).
  apply Nat.leb_le. reflexivity.
Defined.

(** ** Which agents a turn enters *)

Section Routing.
Variable env : environment.
Import CoordinatorAgent.

Lemma invoked_app tr tr' : invoked (tr ++ tr') = invoked tr ++ invoked tr'.
Proof.
  induction tr as [|ev tr IH]; [done |].
  destruct ev; simpl; by rewrite ?IH.
Qed.

Lemma invoked_external tr :
  Forall (λ ev, is_external ev = true) tr → invoked tr = [].
Proof.
  induction 1 as [|ev tr Hev _ IH]; [done |].
  destruct ev; try discriminate; exact IH.
Qed.

Lemma invocations_invoked agent tr :
  invocations agent tr
  = length (List.filter (λ a, String.eqb a agent) (invoked tr)).
Proof.
  unfold invocations. induction tr as [|ev tr IH]; [done |].
  destruct ev; simpl; try exact IH.
  destruct (String.eqb _ _); simpl; by rewrite IH.
Qed.

Lemma new_events_trace w w' added :
  trace w' = trace w ++ added → new_events w w' = added.
Proof. intros H. unfold new_events. by rewrite H, drop_app_length. Qed.

Lemma log_action_raises name action details w e :
  fst (BaseAgent.log_action env name action details w) = Raise e →
  ∃ seen text, st_write env seen text = Raise e.
Proof.
  unfold BaseAgent.log_action, BaseAgent.write, bind, call, ret.
  destruct (st_write env (external (trace w)) _) as [[] | e'] eqn:H1; simpl.
  - destruct (truthy details); simpl; [| discriminate].
    intros H2. eauto.
  - intros [= ->]. eauto.
Qed.

Lemma determine_input_type_cases user_input has_image :
  (has_image = false ∧ _determine_input_type user_input has_image = text_only)
  ∨ (has_image = true
     ∧ (_determine_input_type user_input has_image = vision_primary
        ∨ _determine_input_type user_input has_image = vision_with_text)).
Proof.
  unfold _determine_input_type. destruct has_image; [right | by left].
  split; [done |]. destruct (_ || _); [by left | by right].
Qed.

(** When routing returns, [process] records the decision and returns what
    routing returned. *)
Lemma process_after_route user_input image_data w response w1 :
  _route_request env user_input image_data
    (_determine_input_type user_input (is_not_None image_data))
    (is_not_None image_data) w = (Ok response, w1) →
  process env user_input image_data w
  = (Ok response,
     World
       (StateManager.update_agent_state "coordinator_agent"
          {[ "last_decision" :=
               VStr (_determine_input_type user_input (is_not_None image_data));
             "active" := VBool true;
             "last_routing" :=
               VDict (_get_routing_info
                        (_determine_input_type user_input (is_not_None image_data))
                        (is_not_None image_data)) ]} (st w1))
       (trace w1)).
Proof.
  intros Hroute. unfold process, try_except, bind. by rewrite Hroute.
Qed.

(** The shape of a turn routed to one agent. *)
Lemma single_agent_turn (agent_process : string → option image_object → M string)
    agent action details user_input image_data w :
  (∀ w0, ∃ response w1 calls,
     agent_process user_input image_data w0 = (Ok response, w1)
     ∧ trace w1 = trace w0 ++ EProcess agent user_input image_data :: calls
     ∧ Forall (λ ev, is_external ev = true) calls) →
  _route_request env user_input image_data
    (_determine_input_type user_input (is_not_None image_data))
    (is_not_None image_data)
  = (BaseAgent.log_action env name action details ;;
     agent_process user_input image_data)%py →
  let turn := new_events w (snd (process env user_input image_data w)) in
  invoked turn = [agent]
  ∨ (invoked turn = [] ∧ ∃ e seen text, st_write env seen text = Raise e).
Proof.
  intros Hagent Hroute turn. subst turn.
  destruct (log_action_effect env name action details w)
    as (_ & announced & Hannounced & Hext).
  destruct (BaseAgent.log_action env name action details w) as [[[] | e] w0] eqn:Hlog;
    cbn [snd] in Hannounced.
  - left. destruct (Hagent w0) as (response & w1 & calls & Hrun & Htrace & Hcalls).
    rewrite (process_after_route _ _ _ response w1).
    + cbn [snd]. rewrite (new_events_trace _ _
                            (announced ++ EProcess agent user_input image_data :: calls)).
      * rewrite invoked_app. cbn [invoked]. by rewrite !invoked_external.
      * cbn [trace]. by rewrite Htrace, Hannounced, <- app_assoc.
    + rewrite Hroute. unfold bind. by rewrite Hlog.
  - right. rewrite (process_error_path env _ _ _ e w0).
    + cbn [snd]. rewrite (new_events_trace _ _ announced) by done.
      split; [by apply invoked_external |].
      destruct (log_action_raises name action details w e) as (seen & text & H);
        [by rewrite Hlog | eauto].
    + rewrite Hroute. unfold bind. by rewrite Hlog.
Qed.

(** The agents a turn enters, in order: those [_get_agents_used] names
    for the classification, or none when a write to the page raised. *)
Lemma turn_invoked user_input image_data w :
  let turn := new_events w (snd (process env user_input image_data w)) in
  invoked turn
  = _get_agents_used (_determine_input_type user_input (is_not_None image_data))
  ∨ (invoked turn = [] ∧ ∃ e seen text, st_write env seen text = Raise e).
Proof.
  intros turn. subst turn.
  destruct (determine_input_type_cases user_input (is_not_None image_data))
    as [[Himage Hclass] | [Himage [Hclass | Hclass]]].
  - rewrite Hclass at 1. change (_get_agents_used text_only) with ["Text Agent"].
    apply (single_agent_turn (TextAgent.process env) "Text Agent"
             "Routing to Text Agent" "Processing text-only query").
    + intros w0. apply text_process_returns.
    + by rewrite Hclass.
  - rewrite Hclass at 1. change (_get_agents_used vision_primary) with ["Vision Agent"].
    apply (single_agent_turn (VisionAgent.process env) "Vision Agent"
             "Routing to Vision Agent" "Processing image-focused query").
    + intros w0. apply vision_process_returns.
    + by rewrite Hclass.
  - rewrite Hclass at 1.
    change (_get_agents_used vision_with_text) with ["Vision Agent"; "Text Agent"].
    destruct image_data as [image |]; [| discriminate].
    destruct (log_action_effect env name "Coordinating Multi-Modal Processing"
                "Using both Vision and Text agents" w)
      as (_ & announced & Hannounced & Hext).
    destruct (BaseAgent.log_action env name "Coordinating Multi-Modal Processing"
                "Using both Vision and Text agents" w) as [[[] | e] w0] eqn:Hlog;
      cbn [snd] in Hannounced.
    + left.
      destruct (vision_with_text_run env user_input image w Hclass)
        as (w0' & vision_response & w1 & text_response & w2
            & Hlog0 & Hvision & Htext & Hrun); [by rewrite Hlog |].
      rewrite Hlog in Hlog0. injection Hlog0 as <-.
      destruct (vision_process_returns env user_input (Some image) w0)
        as (? & ? & vision_calls & Hvision' & Hcalls1 & Hext1).
      rewrite Hvision in Hvision'. injection Hvision' as <- <-.
      destruct (text_process_returns env
                  ("Based on this image analysis: " +:+ vision_response +:+ nl +:+ nl
                   +:+ "User's additional question: " +:+ user_input) None w1)
        as (? & ? & text_calls & Htext' & Hcalls2 & Hext2).
      rewrite Htext in Htext'. injection Htext' as <- <-.
      rewrite Hrun. cbn [snd].
      erewrite new_events_trace;
        [| cbn [trace]; rewrite Hcalls2, Hcalls1, Hannounced, <- !app_assoc;
           reflexivity].
      repeat first [rewrite invoked_app | progress cbn [invoked]].
      by rewrite !invoked_external.
    + right. rewrite (process_error_path env _ _ _ e w0).
      * cbn [snd]. rewrite (new_events_trace _ _ announced) by done.
        split; [by apply invoked_external |].
        destruct (log_action_raises name "Coordinating Multi-Modal Processing"
                    "Using both Vision and Text agents" w e) as (seen & text & H);
          [by rewrite Hlog | eauto].
      * rewrite Hclass. unfold _route_request.
        change (String.eqb vision_with_text "text_only") with false.
        change (String.eqb vision_with_text "vision_primary") with false.
        change (String.eqb vision_with_text "vision_with_text") with true.
        cbv iota. unfold bind. by rewrite Hlog.
Qed.

(** On a page that accepts every write, the agents a turn enters are, in
    order, the ones its own routing record names ([agents_used], from
    [_get_agents_used]): the Text agent alone for [text_only], the Vision
    agent alone for [vision_primary], the Vision agent then the Text agent
    for [vision_with_text]. *)
Theorem agents_used_are_the_agents_entered
    (user_input : string) (image_data : option image_object) (w : world) :
  writable env →
  invoked (new_events w (snd (process env user_input image_data w)))
  = _get_agents_used (_determine_input_type user_input (is_not_None image_data)).
Proof.
  intros Hwritable.
  destruct (turn_invoked user_input image_data w)
    as [H | (_ & e & seen & text & Hraise)]; [exact H |].
  rewrite Hwritable in Hraise. discriminate.
Qed.

(** In every environment, a turn enters the Text agent at most once and
    the Vision agent at most once. *)
Theorem each_agent_at_most_once
    (user_input : string) (image_data : option image_object) (w : world) :
  let turn := new_events w (snd (process env user_input image_data w)) in
  (invocations "Text Agent" turn ≤ 1)%nat
  ∧ (invocations "Vision Agent" turn ≤ 1)%nat.
Proof.
  intros turn. subst turn. rewrite !invocations_invoked.
  destruct (turn_invoked user_input image_data w) as [-> | [-> _]];
    [| simpl; lia].
  destruct (determine_input_type_cases user_input (is_not_None image_data))
    as [[_ ->] | [_ [-> | ->]]]; simpl; lia.
Qed.

End Routing.

Lemma agents_used_are_the_agents_entered_witness :
  invoked (new_events fresh_world
             (snd (CoordinatorAgent.process obliging "Why does this matter to me?"
                     (Some (PILImage 1)) fresh_world)))
  = ["Vision Agent"; "Text Agent"].
Proof.
  apply (agents_used_are_the_agents_entered obliging "Why does this matter to me?"
           (Some (PILImage 1)) fresh_world).
  intros seen text. reflexivity.
Defined.

(** ** The agents, continued *)

Section MoreRoles.
Variable env : environment.

Lemma outcome_update_active key response active s :
  is_Some (agent_states s !! key) →
  StateManager.get_agent_state key
    (StateManager.update_agent_state key
       {[ "last_response" := VStr response; "active" := VBool active ]} s) !! "active"
  = Some (VBool active).
Proof.
  intros [d Hd]. unfold StateManager.get_agent_state.
  rewrite (update_agent_state_known _ _ _ _ Hd). simpl.
  apply lookup_union_Some_l. rewrite lookup_insert_ne by done.
  apply lookup_singleton_eq.
Qed.

(** An agent's status after a call of its [process] tells how the call
    went, for an agent that has an entry: active when the client answered,
    inactive when the client, or for the Vision agent the preparation of the
    image, raised. *)
Theorem status_follows_outcome
    (user_input : string) (image_data : option image_object) (w : world) :
  (is_Some (agent_states (st w) !! "text_agent") →
   let context := current_context (st w) in
   fst (TextAgent.get_status (snd (TextAgent.process env user_input image_data w)))
   = Ok match generate_text_response (the_client env) (external (trace w))
                (TextAgent._enhance_prompt user_input context) context with
        | Ok _ => "🟢 Active"
        | Raise _ => "🔴 Inactive"
        end)
  ∧ (∀ image,
       is_Some (agent_states (st w) !! "vision_agent") →
       match image_data with
       | None => StateManager.get_latest_image (st w)
       | Some _ => image_data
       end = Some image →
       let context := current_context (st w) in
       let prepared :=
         VisionAgent._process_image env image
           (World (st w) (trace w ++ [EProcess "Vision Agent" user_input image_data])) in
       fst (VisionAgent.get_status
              (snd (VisionAgent.process env user_input image_data w)))
       = Ok match fst prepared with
            | Ok processed_image =>
                match generate_vision_response (the_client env)
                        (external (trace (snd prepared)))
                        (VisionAgent._enhance_vision_prompt user_input context)
                        processed_image context with
                | Ok _ => "🟢 Active"
                | Raise _ => "🔴 Inactive"
                end
            | Raise _ => "🔴 Inactive"
            end).
Proof.
  split.
  - intros Hentry context. rewrite text_process_run. fold context.
    destruct (generate_text_response _ _ _ _) as [response | e]; cbn [snd];
      unfold TextAgent.get_status, BaseAgent.get_state, bind, read, ret;
      cbn [st fst];
      change (BaseAgent.state_key TextAgent.name) with "text_agent".
    + change (StateManager.get_agent_state "text_agent"
                (StateManager.update_context ?c ?s))
        with (StateManager.get_agent_state "text_agent" s).
      by rewrite outcome_update_active.
    + by rewrite outcome_update_active.
  - intros image Hentry Himage context prepared.
    pose proof (process_image_effect env image
                  (World (st w)
                     (trace w ++ [EProcess "Vision Agent" user_input image_data])))
      as [Hst _].
    fold prepared in Hst. cbn [st] in Hst.
    rewrite vision_process_run, Himage.
    change (VisionAgent._process_image env image _) with prepared.
    destruct prepared as [[processed_image | e] w1]; cbn [fst snd] in *;
      [fold context; destruct (generate_vision_response _ _ _ _ _) as [response | e] |];
      cbn [snd];
      unfold VisionAgent.get_status, BaseAgent.get_state, bind, read, ret;
      cbn [st fst];
      change (BaseAgent.state_key VisionAgent.name) with "vision_agent";
      rewrite Hst.
    + change (StateManager.get_agent_state "vision_agent"
                (StateManager.update_context ?c ?s))
        with (StateManager.get_agent_state "vision_agent" s).
      by rewrite outcome_update_active.
    + by rewrite outcome_update_active.
    + by rewrite outcome_update_active.
Qed.

(** An upload that cannot be opened never reaches the client. When the
    image the Vision agent ends up with is file-like and [Image.open]
    raises, [process] returns the error with both prefixes, marks the agent
    inactive, and its only external call was the attempt to open the
    image. *)
Theorem unreadable_image_skips_generation
    (user_input : string) (image_data : option image_object) (h : N) (e : exn)
    (w : world) :
  match image_data with
  | None => StateManager.get_latest_image (st w)
  | Some _ => image_data
  end = Some (FileLike h) →
  Image_open env (external (trace w)) h = Raise e →
  let error_msg := "Error processing image: Unable to process image: " +:+ str e in
  VisionAgent.process env user_input image_data w
  = (Ok error_msg,
     World
       (StateManager.update_agent_state "vision_agent"
          {[ "last_response" := VStr error_msg; "active" := VBool false ]} (st w))
       (trace w ++ [EProcess "Vision Agent" user_input image_data; EImageOpen h])).
Proof.
  intros Himage Hopen error_msg.
  rewrite vision_process_run, Himage, process_image_run. cbn [st trace].
  rewrite external_mark, Hopen. cbn [st trace str].
  subst error_msg. rewrite <- !app_assoc. reflexivity.
Qed.

(** A blank question about an image is replaced by the request for a
    description; any other question closes the prompt as it is. *)
Theorem blank_question_asks_for_description (user_input context : string) :
  (blank user_input →
   VisionAgent._enhance_vision_prompt user_input context
   = VisionAgent._enhance_vision_prompt "Please describe this image in detail." context)
  ∧ (¬ blank user_input →
     ∃ before,
       VisionAgent._enhance_vision_prompt user_input context = before +:+ user_input).
Proof.
  unfold VisionAgent._enhance_vision_prompt. split.
  - intros Hblank. apply strip_blank in Hblank as ->. reflexivity.
  - intros Hblank.
    destruct (truthy (strip user_input)) eqn:Hstrip;
      [| by apply strip_blank in Hstrip].
    cbn [negb]. destruct (truthy context); eexists;
      rewrite <- ?append_assoc; reflexivity.
Qed.

End MoreRoles.

Lemma status_follows_outcome_witness :
  fst (TextAgent.get_status
         (snd (TextAgent.process failing_gateway "hello" None fresh_world)))
  = Ok "🔴 Inactive"
  ∧ fst (VisionAgent.get_status
           (snd (VisionAgent.process obliging "hello" (Some (PILImage 1)) fresh_world)))
    = Ok "🟢 Active".
Proof.
  destruct (status_follows_outcome failing_gateway "hello" None fresh_world)
    as [Htext _].
  destruct (status_follows_outcome obliging "hello" (Some (PILImage 1)) fresh_world)
    as [_ Hvision].
  split.
  - apply Htext. by eexists.
  - apply (Hvision (PILImage 1)); [by eexists | reflexivity].
Defined.

Lemma unreadable_image_skips_generation_witness :
  let env :=
    {| the_client := the_client obliging;
       st_write := fun _ _ => Ok tt;
       Image_open := fun _ _ => Raise (Exception "cannot identify image file") |} in
  fst (VisionAgent.process env "hello" None uploaded_world)
  = Ok "Error processing image: Unable to process image: cannot identify image file".
Proof.
  intros env.
  pose proof (unreadable_image_skips_generation env "hello" None 7
                (Exception "cannot identify image file") uploaded_world) as H.
  simpl in H. rewrite H; reflexivity.
Defined.

Lemma blank_question_asks_for_description_witness :
  VisionAgent._enhance_vision_prompt "  " ""
  = VisionAgent._enhance_vision_prompt "Please describe this image in detail." ""
  ∧ ∃ before, VisionAgent._enhance_vision_prompt "Why?" "" = before +:+ "Why?".
Proof.
  destruct (blank_question_asks_for_description "  " "") as [Hblank _].
  destruct (blank_question_asks_for_description "Why?" "") as [_ Hother].
  split.
  - apply Hblank. simpl. repeat split.
  - apply Hother. simpl. intros [H _]. discriminate H.
Defined.

(** ** Classification, continued *)

Section MoreClassification.
Import CoordinatorAgent.

Lemma lower_char_idemp c : lower_char (lower_char c) = lower_char c.
Proof. by destruct c as [[] [] [] [] [] [] [] []]. Qed.

Lemma isspace_lower_char c : isspace (lower_char c) = isspace c.
Proof. by destruct c as [[] [] [] [] [] [] [] []]. Qed.

Lemma lower_app s1 s2 : lower (s1 +:+ s2) = lower s1 +:+ lower s2.
Proof.
  induction s1 as [|c s1 IH]; [done |].
  change (String (lower_char c) (lower (s1 +:+ s2))
          = String (lower_char c) (lower s1 +:+ lower s2)).
  by rewrite IH.
Qed.

Lemma blank_lower s : blank (lower s) ↔ blank s.
Proof.
  induction s as [|c s IH]; simpl; [done |].
  by rewrite isspace_lower_char, IH.
Qed.

Lemma strip_test_lower s :
  truthy (strip (lower s)) = truthy (strip s).
Proof.
  destruct (truthy (strip s)) eqn:H.
  - destruct (truthy (strip (lower s))) eqn:Hl; [done |].
    apply (proj1 (strip_blank _)), (proj1 (blank_lower _)),
      (proj2 (strip_blank _)) in Hl.
    congruence.
  - by apply (proj1 (strip_blank _)), (proj2 (blank_lower _)),
      (proj2 (strip_blank _)) in H.
Qed.

(** Classification sees the text through [lower] only: two texts with the
    same lowercase form are classified alike. *)
Theorem classification_ignores_case (text1 text2 : string) (has_image : bool) :
  lower text1 = lower text2 →
  _determine_input_type text1 has_image = _determine_input_type text2 has_image.
Proof.
  intros Hlower. unfold _determine_input_type. rewrite Hlower.
  by rewrite <- (strip_test_lower text1), <- (strip_test_lower text2), Hlower.
Qed.

Lemma classification_ignores_case_witness :
  _determine_input_type "Tell me WHAT IS wrong" true
  = _determine_input_type "tell me what is wrong" true.
Proof.
  apply (classification_ignores_case "Tell me WHAT IS wrong" "tell me what is wrong").
  reflexivity.
Defined.

(** A keyword decides wherever it stands and however it is cased: with an
    image, a text that contains a word whose lowercase form is one of the
    keywords is [vision_primary], whatever comes before and after it, inside
    another word included. *)
Theorem keyword_anywhere_is_vision_primary (before word after : string) :
  lower word ∈ image_keywords →
  _determine_input_type (before +:+ word +:+ after) true = vision_primary.
Proof.
  intros Hword. unfold _determine_input_type.
  assert (Hk : existsb
                 (λ keyword, contains keyword (lower (before +:+ word +:+ after)))
                 image_keywords = true).
  { apply keyword_test. exists (lower word). split; [done |].
    exists (lower before), (lower after). by rewrite !lower_app. }
  by rewrite Hk.
Qed.

Lemma keyword_anywhere_is_vision_primary_witness :
  _determine_input_type "The overSEEr signed it" true = vision_primary.
Proof.
  apply (keyword_anywhere_is_vision_primary "The over" "SEE" "r signed it").
  apply list_elem_of_In. simpl. tauto.
Defined.

End MoreClassification.

(** ** The repository's client *)

Section Gemini.
Variable text_model : list event → string → result string.
Variable vision_model : list event → string → image_object → result string.
Variable write : list event → string → result unit.
Variable open : list event → N → result N.

(** With the repository's own client a failing model is not a failure to
    the Text agent. [GeminiClient] turns the exception into a string, so
    [process] takes its normal path on every answer of the model: it returns
    the model's text, or the client's error text, records it as
    [last_response] with [active] true, and appends the summary of the turn
    to the rolling context. *)
Theorem gemini_failure_is_an_answer
    (user_input : string) (image_data : option image_object) (w : world) :
  let env := Environment (GeminiClient.self text_model vision_model) write open in
  let context := current_context (st w) in
  let prompt := TextAgent._enhance_prompt user_input context in
  let answer :=
    match text_model (external (trace w))
            (if truthy context
             then "Context: " +:+ context +:+ nl +:+ nl +:+ "Query: " +:+ prompt
             else prompt) with
    | Ok text => text
    | Raise e => "Error generating text response: " +:+ str e
    end in
  TextAgent.process env user_input image_data w
  = (Ok answer,
     World
       (StateManager.update_context
          ("User asked: " +:+ user_input +:+ nl +:+ "Agent responded: "
           +:+ upto 200 answer +:+ "...")
          (StateManager.update_agent_state "text_agent"
             {[ "last_response" := VStr answer; "active" := VBool true ]} (st w)))
       (trace w ++ [EProcess "Text Agent" user_input image_data;
                    EGenerateText prompt context])).
Proof.
  intros env context prompt answer. rewrite text_process_run.
  fold context prompt. subst answer. cbn [the_client env generate_text_response
    GeminiClient.self]. unfold GeminiClient.generate_text_response,
    GeminiClient.full_prompt.
  by destruct (text_model _ _).
Qed.

(** With the repository's own client the synthesis never falls back: in
    every answer of the model, [_combine_responses] returns a text under the
    "Comprehensive Analysis" banner, the client's error text included. *)
Theorem gemini_synthesis_never_falls_back
    (vision_response text_response original_query : string) (w : world) :
  let env := Environment (GeminiClient.self text_model vision_model) write open in
  let prompt :=
    CoordinatorAgent.synthesis_prompt original_query vision_response text_response in
  fst (CoordinatorAgent._combine_responses env vision_response text_response
         original_query w)
  = Ok ("**Comprehensive Analysis:**" +:+ nl +:+ nl
        +:+ match text_model (external (trace w)) prompt with
            | Ok text => text
            | Raise e => "Error generating text response: " +:+ str e
            end).
Proof.
  intros env prompt. rewrite combine_responses_run. fold prompt. cbn [fst].
  cbn [the_client env generate_text_response GeminiClient.self].
  unfold GeminiClient.generate_text_response, GeminiClient.full_prompt.
  cbn [truthy]. by destruct (text_model _ _).
Qed.

End Gemini.

(** ** What the page shows *)

Section Page.
Variable env : environment.

Lemma coordinator_state_unreadable w :
  agent_states (st w) !! "coordinator_agent" = None →
  BaseAgent.get_state CoordinatorAgent.name w = (Ok ∅, w).
Proof.
  intros Hnone. unfold BaseAgent.get_state, read, StateManager.get_agent_state.
  change (BaseAgent.state_key CoordinatorAgent.name) with "coordinator_agent".
  by rewrite Hnone.
Qed.

Lemma coordinator_status_inactive w :
  agent_states (st w) !! "coordinator_agent" = None →
  CoordinatorAgent.get_status w = (Ok "ğŸ”´ Inactive", w).
Proof.
  intros Hnone. unfold CoordinatorAgent.get_status, bind.
  by rewrite coordinator_state_unreadable.
Qed.

Lemma text_status_run w :
  TextAgent.get_status w
  = (Ok (if truth (default (VBool false)
                     (StateManager.get_agent_state "text_agent" (st w) !! "active"))
         then "🟢 Active" else "🔴 Inactive"), w).
Proof. reflexivity. Qed.

Lemma vision_status_run w :
  VisionAgent.get_status w
  = (Ok (if truth (default (VBool false)
                     (StateManager.get_agent_state "vision_agent" (st w) !! "active"))
         then "🟢 Active" else "🔴 Inactive"), w).
Proof. reflexivity. Qed.

Lemma no_coordinator_agent_stable :
  stable (λ s, agent_states s !! "coordinator_agent" = None).
Proof.
  intros s Hs. split; [| done].
  intros agent_name state_data.
  destruct (decide (agent_name = "coordinator_agent")) as [-> | Hne].
  - by rewrite update_agent_state_unknown.
  - by rewrite update_agent_state_other.
Qed.

(** In a session without an entry under ["coordinator_agent"], as every
    session [initialize_session_state] creates is, [get_system_status]
    reports the coordinator inactive whatever happened before, counts three
    agents, and counts as active the Text and the Vision agent when their
    [active] field is true: never more than two. It changes nothing. *)
Theorem system_status_counts_two_at_most (w : world) :
  agent_states (st w) !! "coordinator_agent" = None →
  let active_of agent :=
    truth (default (VBool false)
             (StateManager.get_agent_state agent (st w) !! "active")) in
  ∃ status,
    CoordinatorAgent.get_system_status w = (Ok status, w)
    ∧ status_coordinator status = "ğŸ”´ Inactive"
    ∧ status_text_agent status
      = (if active_of "text_agent" then "🟢 Active" else "🔴 Inactive")
    ∧ status_vision_agent status
      = (if active_of "vision_agent" then "🟢 Active" else "🔴 Inactive")
    ∧ total_agents status = 3
    ∧ active_agents status
      = (if active_of "text_agent" then 1 else 0)
        + (if active_of "vision_agent" then 1 else 0)
    ∧ 0 ≤ active_agents status ≤ 2.
Proof.
  intros Hnone active_of.
  unfold CoordinatorAgent.get_system_status, bind.
  rewrite (coordinator_status_inactive w Hnone), text_status_run, vision_status_run.
  rewrite (coordinator_status_inactive w Hnone), text_status_run, vision_status_run.
  fold (active_of "text_agent") (active_of "vision_agent").
  eexists. split; [reflexivity |]. cbn [status_coordinator status_text_agent
    status_vision_agent total_agents active_agents].
  destruct (active_of "text_agent"), (active_of "vision_agent");
    repeat split; try reflexivity; vm_compute; congruence.
Qed.

(** In such a session every turn is filed under "Coordinator": after
    [process], whatever the routing, the label [handle_user_input] derives
    from the coordinator's state is "Coordinator". *)
Theorem turn_is_filed_under_coordinator
    (user_input : string) (image_data : option image_object) (w : world) :
  agent_states (st w) !! "coordinator_agent" = None →
  fst (App.agent_type_of_turn
         (snd (CoordinatorAgent.process env user_input image_data w)))
  = Ok "Coordinator".
Proof.
  intros Hnone.
  pose proof (process_maintains env _ user_input image_data
                no_coordinator_agent_stable w Hnone) as Hafter.
  unfold App.agent_type_of_turn, bind.
  rewrite coordinator_state_unreadable by done.
  by rewrite lookup_empty.
Qed.

(** The message count of the header is the length of the log up to 1000
    records, and 1000 from there on. *)
Theorem message_count_stops_at_1000 (s : session_state) :
  App.message_count s = (length (conversation_history s) `min` 1000)%nat.
Proof.
  unfold App.message_count, StateManager.get_recent_history.
  destruct (conversation_history s) as [|r log] eqn:Hlog; [done |].
  rewrite list_from_positive, length_drop by lia.
  change (Z.to_nat 1000) with 1000%nat. lia.
Qed.

End Page.

Lemma system_status_counts_two_at_most_witness :
  ∃ status,
    CoordinatorAgent.get_system_status fresh_world = (Ok status, fresh_world)
    ∧ status_coordinator status = "ğŸ”´ Inactive"
    ∧ active_agents status = 2.
Proof.
  destruct (system_status_counts_two_at_most fresh_world)
    as (status & Hrun & Hcoordinator & _ & _ & _ & Hactive & _); [reflexivity |].
  exists status. split; [exact Hrun |]. split; [exact Hcoordinator | exact Hactive].
Defined.

Lemma turn_is_filed_under_coordinator_witness :
  fst (App.agent_type_of_turn
         (snd (CoordinatorAgent.process obliging "What's the capital of France?" None
                 fresh_world)))
  = Ok "Coordinator".
Proof.
  apply (turn_is_filed_under_coordinator obliging "What's the capital of France?"
           None fresh_world).
  reflexivity.
Defined.

(** ** Uploads and the reset of a session *)

Section UploadsAndReset.
Import StateManager.

Lemma uploaded_images_after (uploads : list (string * image_object)) s :
  uploaded_images (foldl (λ s u, add_uploaded_image u.1 u.2 s) s uploads)
  = uploaded_images s ++ map (λ u, UploadedImage u.1 u.2) uploads.
Proof.
  revert s. induction uploads as [|u uploads IH]; intros s; simpl.
  - by rewrite app_nil_r.
  - rewrite IH. simpl. by rewrite <- app_assoc.
Qed.

(** After any number of uploads the latest image is the one uploaded
    last; without a new upload it is the one it was. *)
Theorem latest_image_is_last_upload
    (uploads : list (string * image_object)) (s : session_state) :
  get_latest_image (foldl (λ s u, add_uploaded_image u.1 u.2 s) s uploads)
  = match last uploads with
    | Some u => Some u.2
    | None => get_latest_image s
    end.
Proof.
  rewrite !get_latest_image_last, uploaded_images_after.
  destruct uploads as [|u uploads _] using rev_ind.
  - by rewrite app_nil_r.
  - rewrite last_snoc, map_app, app_assoc. cbn [map]. by rewrite last_snoc.
Qed.

(** [clear_history] empties the log, the context and the uploads: after
    it [get_recent_history] returns nothing for every limit, there is no
    latest image, and the Vision agent called without an image answers
    that none was provided. The agents' states are not reset. *)
Theorem clear_history_resets_stores_only (s : session_state) :
  (∀ limit, get_recent_history limit (clear_history s) = [])
  ∧ get_context (clear_history s) = ""
  ∧ get_latest_image (clear_history s) = None
  ∧ agent_states (clear_history s) = agent_states s
  ∧ (∀ env user_input tr,
       fst (VisionAgent.process env user_input None (World (clear_history s) tr))
       = Ok "No image provided. Please upload an image for visual analysis.").
Proof.
  split; [done |]. split; [done |]. split; [done |]. split; [done |].
  intros env user_input tr. by rewrite vision_process_run.
Qed.

End UploadsAndReset.

(** C4 as stated fails when the page cannot be written to. The turn is
    classified [vision_with_text], the routing announcement raises, and
    [process] answers with the coordinator error: neither agent is entered,
    where each should be entered exactly once. *)
Lemma vision_with_text_unwritable_page_counterexample :
  let question := "Why does this matter to me?" in
  let turn :=
    new_events fresh_world
      (snd (CoordinatorAgent.process broken_page question (Some (PILImage 1))
              fresh_world)) in
  CoordinatorAgent._determine_input_type question (is_not_None (Some (PILImage 1)))
  = vision_with_text
  ∧ fst (CoordinatorAgent.process broken_page question (Some (PILImage 1)) fresh_world)
    = Ok "Coordinator error: page closed"
  ∧ invocations "Vision Agent" turn = 0%nat
  ∧ invocations "Text Agent" turn = 0%nat
  ∧ ¬ (invocations "Vision Agent" turn = 1%nat
       ∧ invocations "Text Agent" turn = 1%nat).
Proof.
  intros question turn.
  split; [reflexivity |]. split; [reflexivity |].
  split; [reflexivity |]. split; [reflexivity |].
  intros [Hvision _]. vm_compute in Hvision. discriminate Hvision.
Qed.
